(** * Chessmata CLI: the WebSocket client of [cli/chessmata/websocket.py]

    A shallow embedding of [SimpleWebSocket]: the frame encoder
    ([_send_frame]), the frame decoder (the body of the inner [while] of
    [_receive_loop]), the handshake check of [connect] and the receive loop
    itself, followed by the properties of the frame codec and of the
    connection that the design document states.

    Conventions.
    - A Python [bytes]/[bytearray] is a [list byte]; a Python [int] is a [Z].
    - A Python [str] is the list of its code points ([pystr]).
    - Code that can raise returns a [result]; the exception classes that the
      code can meet are the constructors of [exn].
    - The socket is seen from the client: what [recv] returns or raises is a
      list of [recv_event]s fixed in advance, what [sendall] is called with
      is logged in the connection state.  [os.urandom] and the outcome of
      [sendall] are oracles of the environment [env]. *)

From Stdlib Require Import ZArith List Lia Bool String Ascii.
From coqutil Require Import Byte.
Import ListNotations.
Local Open Scope Z_scope.

(* ===================================================================== *)
(** ** Python primitives                                                   *)
(* ===================================================================== *)

Definition bytes := list byte.

(** A [str] as the sequence of its code points. *)
Definition pystr := list Z.

(** [len(x)] *)
Definition len {A : Type} (l : list A) : Z := Z.of_nat (List.length l).

(** [x[lo:hi]] for [0 <= lo]; Python clamps both ends to the length, and an
    empty slice results when [hi <= lo].  The code only slices with
    non-negative indices ([header_len - 4 >= 2] whenever it is used). *)
Definition slice {A : Type} (l : list A) (lo hi : Z) : list A :=
  firstn (Z.to_nat (hi - lo)) (skipn (Z.to_nat lo) l).

(** [x[lo:]] for [0 <= lo]. *)
Definition slice_from {A : Type} (l : list A) (lo : Z) : list A :=
  skipn (Z.to_nat lo) l.

(** The exceptions the modelled code can meet. *)
Inductive exn : Type :=
| ValueError            (* bytearray.append of a value outside range(256) *)
| OverflowError         (* int.to_bytes: int too big to convert *)
| UnicodeDecodeError    (* bytes.decode('utf-8') *)
| UnicodeEncodeError    (* str.encode('utf-8') on a lone surrogate *)
| SocketTimeout         (* socket.timeout *)
| SocketError           (* any other failure of recv / sendall *)
| CallbackError         (* an exception of the on_message callback's own *)
| WebSocketError (msg : pystr).

Inductive result (A : Type) : Type :=
| Ok (a : A)
| Raise (e : exn).
Arguments Ok {A} a.
Arguments Raise {A} e.

Definition bind {A B : Type} (r : result A) (k : A -> result B) : result B :=
  match r with
  | Ok a => k a
  | Raise e => Raise e
  end.

Notation "x <- r ;; k" := (bind r (fun x => k))
  (at level 61, r at next level, right associativity).

(** The [n] big-endian base-256 digits of [v]. *)
Fixpoint be_digits (n : nat) (v : Z) : bytes :=
  match n with
  | O => []
  | S k => byte.of_Z (v / 256 ^ Z.of_nat k) :: be_digits k v
  end.

(** [v.to_bytes(n, 'big')]: raises [OverflowError] when [v] is negative or
    does not fit in [n] bytes. *)
Definition int_to_bytes (v : Z) (n : nat) : result bytes :=
  if (0 <=? v) && (v <? 256 ^ Z.of_nat n)
  then Ok (be_digits n v)
  else Raise OverflowError.

(** [int.from_bytes(bs, 'big')] *)
Definition int_from_bytes (bs : bytes) : Z :=
  fold_left (fun acc b => acc * 256 + byte.unsigned b) bs 0.

(** [bytearray.append(v)]: [v] must be in [range(256)]. *)
Definition append_byte (frame : bytes) (v : Z) : result bytes :=
  if (0 <=? v) && (v <? 256) then Ok (frame ++ [byte.of_Z v])
  else Raise ValueError.

(** [needle in hay] for sequences (bytes in bytes, str in str). *)
Fixpoint starts_with {A : Type} (eqb : A -> A -> bool) (needle hay : list A) : bool :=
  match needle, hay with
  | [], _ => true
  | _ :: _, [] => false
  | x :: n', y :: h' => eqb x y && starts_with eqb n' h'
  end.

Fixpoint contains {A : Type} (eqb : A -> A -> bool) (needle hay : list A) : bool :=
  match hay with
  | [] => starts_with eqb needle []
  | _ :: h' => starts_with eqb needle hay || contains eqb needle h'
  end.

Definition bytes_in (needle hay : bytes) : bool := contains Byte.eqb needle hay.
Definition str_in (needle hay : pystr) : bool := contains Z.eqb needle hay.

(** ASCII literals, as [bytes] and as [str]. *)
Definition b_lit (s : string) : bytes := list_byte_of_string s.
Definition s_lit (s : string) : pystr := List.map byte.unsigned (list_byte_of_string s).

Definition CRLF : bytes := [Byte.x0d; Byte.x0a].
Definition s_CRLF : pystr := [13; 10].

(* --------------------------------------------------------------------- *)
(** *** UTF-8 ([bytes.decode('utf-8')], [str.encode('utf-8')], strict)     *)
(* --------------------------------------------------------------------- *)

Definition between (lo hi x : Z) : bool := (lo <=? x) && (x <=? hi).

Definition is_cont (b : byte) : bool := between 128 191 (byte.unsigned b).

Definition cont_bits (b : byte) : Z := byte.unsigned b - 128.

(** Strict decoding: overlong forms, surrogates and code points above
    U+10FFFF are refused, as CPython does. *)
Fixpoint utf8_decode (bs : bytes) : option pystr :=
  match bs with
  | [] => Some []
  | b0 :: t0 =>
    let x0 := byte.unsigned b0 in
    if x0 <? 128 then option_map (cons x0) (utf8_decode t0)
    else if between 194 223 x0 then
      match t0 with
      | b1 :: t1 =>
        if is_cont b1
        then option_map (cons ((x0 - 192) * 64 + cont_bits b1)) (utf8_decode t1)
        else None
      | _ => None
      end
    else if between 224 239 x0 then
      match t0 with
      | b1 :: b2 :: t2 =>
        let lo := if x0 =? 224 then 160 else 128 in
        let hi := if x0 =? 237 then 159 else 191 in
        if between lo hi (byte.unsigned b1) && is_cont b2
        then option_map
               (cons ((x0 - 224) * 4096 + cont_bits b1 * 64 + cont_bits b2))
               (utf8_decode t2)
        else None
      | _ => None
      end
    else if between 240 244 x0 then
      match t0 with
      | b1 :: b2 :: b3 :: t3 =>
        let lo := if x0 =? 240 then 144 else 128 in
        let hi := if x0 =? 244 then 143 else 191 in
        if between lo hi (byte.unsigned b1) && is_cont b2 && is_cont b3
        then option_map
               (cons ((x0 - 240) * 262144 + cont_bits b1 * 4096
                      + cont_bits b2 * 64 + cont_bits b3))
               (utf8_decode t3)
        else None
      | _ => None
      end
    else None
  end.

Definition utf8_encode_cp (c : Z) : option bytes :=
  if between 0 127 c then Some [byte.of_Z c]
  else if between 128 2047 c then
    Some [byte.of_Z (192 + c / 64); byte.of_Z (128 + c mod 64)]
  else if between 55296 57343 c then None
  else if between 2048 65535 c then
    Some [byte.of_Z (224 + c / 4096); byte.of_Z (128 + (c / 64) mod 64);
          byte.of_Z (128 + c mod 64)]
  else if between 65536 1114111 c then
    Some [byte.of_Z (240 + c / 262144); byte.of_Z (128 + (c / 4096) mod 64);
          byte.of_Z (128 + (c / 64) mod 64); byte.of_Z (128 + c mod 64)]
  else None.

Fixpoint utf8_encode (s : pystr) : option bytes :=
  match s with
  | [] => Some []
  | c :: s' =>
    match utf8_encode_cp c, utf8_encode s' with
    | Some b, Some bs => Some (b ++ bs)
    | _, _ => None
    end
  end.

Definition decode_utf8 (bs : bytes) : result pystr :=
  match utf8_decode bs with
  | Some s => Ok s
  | None => Raise UnicodeDecodeError
  end.

Definition encode_utf8 (s : pystr) : result bytes :=
  match utf8_encode s with
  | Some b => Ok b
  | None => Raise UnicodeEncodeError
  end.

(* ===================================================================== *)
(** ** Frame codec                                                         *)
(* ===================================================================== *)

(** The four bytes of [os.urandom(4)]. *)
Record mask_key : Type := MaskKey { k0 : byte; k1 : byte; k2 : byte; k3 : byte }.

Definition key_bytes (k : mask_key) : bytes := [k0 k; k1 k; k2 k; k3 k].

(** [for i, byte in enumerate(data): out.append(byte ^ mask[i % 4])], with
    the enumeration starting at [i].  Both call sites pass a [mask] of four
    bytes, so the default of [nth] is never read. *)
Fixpoint xor_from (i : nat) (mask data : bytes) : bytes :=
  match data with
  | [] => []
  | b :: tl => byte.xor b (nth (i mod 4)%nat mask Byte.x00) :: xor_from (S i) mask tl
  end.

Definition xor_mask (mask data : bytes) : bytes := xor_from 0 mask data.

(** [SimpleWebSocket._send_frame], up to the call of [sendall]: the bytes of
    the frame for payload [data], opcode [opcode] and masking key [mask]. *)
Definition frame_bytes (data : bytes) (opcode : Z) (mask : mask_key) : result bytes :=
  let frame := [] in
  (* First byte: FIN + opcode *)
  frame <- append_byte frame (Z.lor 128 opcode) ;;
  (* Masking is required for client-to-server *)
  let mask_bit := 128 in
  let length := len data in
  frame <-
    (if length <=? 125 then
       append_byte frame (Z.lor mask_bit length)
     else if length <=? 65535 then
       frame <- append_byte frame (Z.lor mask_bit 126) ;;
       ext <- int_to_bytes length 2 ;;
       Ok (frame ++ ext)
     else
       frame <- append_byte frame (Z.lor mask_bit 127) ;;
       ext <- int_to_bytes length 8 ;;
       Ok (frame ++ ext)) ;;
  (* Masking key *)
  let frame := frame ++ key_bytes mask in
  (* Masked payload *)
  Ok (frame ++ xor_mask (key_bytes mask) data).

(** What one pass through the body of [while len(buffer) >= 2] extracts.
    The code reads the opcode, the mask bit and the length; it never reads
    the FIN bit, so the frame keeps the whole first byte. *)
Record frame : Type := Frame {
  first_byte : byte;
  opcode : Z;
  masked : bool;
  payload : bytes;
  total_len : Z          (* bytes consumed from the buffer *)
}.

Inductive decoded : Type :=
| NeedMoreData
| Decoded (f : frame) (rest : bytes).

(** The FIN bit of the first byte (bit 7), which the code does not look at. *)
Definition fin (f : frame) : bool := negb (Z.land (byte.unsigned (first_byte f)) 128 =? 0).

(** One decode attempt on the receive buffer: the inner loop's condition and
    its body up to [buffer = buffer[total_len:]].  Each [break] before that
    point is [NeedMoreData]. *)
Definition decode_step (buffer : bytes) : decoded :=
  match buffer with
  | b0 :: b1 :: _ =>
    let opcode := Z.land (byte.unsigned b0) 15 in
    let masked := negb (Z.land (byte.unsigned b1) 128 =? 0) in
    let payload_len := Z.land (byte.unsigned b1) 127 in
    let ext :=
      if payload_len =? 126 then
        if len buffer <? 4 then None
        else Some (int_from_bytes (slice buffer 2 4), 4)
      else if payload_len =? 127 then
        if len buffer <? 10 then None
        else Some (int_from_bytes (slice buffer 2 10), 10)
      else Some (payload_len, 2) in
    match ext with
    | None => NeedMoreData
    | Some (payload_len, header_len) =>
      let header_len := if masked then header_len + 4 else header_len in
      let total_len := header_len + payload_len in
      if len buffer <? total_len then NeedMoreData
      else
        let payload :=
          if masked
          then xor_mask (slice buffer (header_len - 4) header_len)
                        (slice buffer header_len total_len)
          else slice buffer header_len total_len in
        Decoded (Frame b0 opcode masked payload total_len)
                (slice_from buffer total_len)
    end
  | _ => NeedMoreData
  end.

(* ===================================================================== *)
(** ** Connection                                                          *)
(* ===================================================================== *)

(** What a call of [recv] on the socket does: it returns a chunk (an empty
    one is the peer's end of stream) or raises. *)
Inductive recv_event : Type :=
| Chunk (c : bytes)
| RecvRaises (x : exn).

(** The collaborators of the connection: the callback given to the
    constructor ([None] when absent; applied to a message it tells what the
    callback raises, [None] when it returns), the bytes [os.urandom(4)]
    returns at its n-th call, and what the n-th call of [sendall] raises
    ([None] when it returns).  The callback is taken not to touch the
    connection. *)
Record env : Type := Env {
  on_message : option (pystr -> option exn);
  urandom4 : nat -> mask_key;
  sendall_raises : nat -> option exn
}.

(** The fields of a [SimpleWebSocket] and the observable effects so far. *)
Record conn : Type := Conn {
  connected : bool;          (* self._connected *)
  stop_event : bool;         (* self._stop_event.is_set() *)
  sent : list bytes;         (* the arguments of sendall, oldest first *)
  delivered : list pystr;    (* the arguments of on_message, oldest first *)
  printed : list exn;        (* print(f"WebSocket error: {e}") *)
  urandom_calls : nat        (* calls of os.urandom(4) so far *)
}.

(** [SimpleWebSocket.__init__] *)
Definition init : conn := Conn false false [] [] [] 0.

Definition set_connected (b : bool) (st : conn) : conn :=
  Conn b (stop_event st) (sent st) (delivered st) (printed st) (urandom_calls st).

Definition clear_stop (st : conn) : conn :=
  Conn (connected st) false (sent st) (delivered st) (printed st) (urandom_calls st).

Definition log_sent (f : bytes) (st : conn) : conn :=
  Conn (connected st) (stop_event st) (sent st ++ [f]) (delivered st) (printed st)
       (urandom_calls st).

Definition log_delivered (m : pystr) (st : conn) : conn :=
  Conn (connected st) (stop_event st) (sent st) (delivered st ++ [m]) (printed st)
       (urandom_calls st).

Definition log_printed (e : exn) (st : conn) : conn :=
  Conn (connected st) (stop_event st) (sent st) (delivered st) (printed st ++ [e])
       (urandom_calls st).

Definition tick_urandom (st : conn) : conn :=
  Conn (connected st) (stop_event st) (sent st) (delivered st) (printed st)
       (S (urandom_calls st)).

(** [self._socket.sendall(data)] *)
Definition sendall (e : env) (st : conn) (data : bytes) : result unit * conn :=
  let st' := log_sent data st in
  match sendall_raises e (List.length (sent st)) with
  | None => (Ok tt, st')
  | Some x => (Raise x, st')
  end.

(** [SimpleWebSocket._send_frame]: the header is built first (and may raise),
    then the key is drawn, then the frame goes to [sendall]. *)
Definition send_frame (e : env) (st : conn) (data : bytes) (opcode : Z)
  : result unit * conn :=
  match frame_bytes data opcode (urandom4 e (urandom_calls st)) with
  | Raise x => (Raise x, st)
  | Ok f => sendall e (tick_urandom st) f
  end.

(** [SimpleWebSocket.send] *)
Definition send (e : env) (st : conn) (message : pystr) : result unit * conn :=
  if negb (connected st) then (Raise (WebSocketError (s_lit "Not connected")), st)
  else
    match encode_utf8 message with
    | Raise x => (Raise x, st)
    | Ok data => send_frame e st data 1
    end.

(* --------------------------------------------------------------------- *)
(** *** Handshake                                                          *)
(* --------------------------------------------------------------------- *)

(** The outcome of code that reads from the socket: it returns, it raises,
    or it is still waiting in [recv] when the given events are used up. *)
Inductive io (A : Type) : Type :=
| Done (a : A)
| Fail (e : exn)
| Wait.
Arguments Done {A} a.
Arguments Fail {A} e.
Arguments Wait {A}.

(** The request text of [connect]; [path] already carries the query, [key]
    is the base64 text of [os.urandom(16)]. *)
Definition handshake_request (path host key : pystr) : pystr :=
  s_lit "GET " ++ path ++ s_lit " HTTP/1.1" ++ s_CRLF ++
  s_lit "Host: " ++ host ++ s_CRLF ++
  s_lit "Upgrade: websocket" ++ s_CRLF ++
  s_lit "Connection: Upgrade" ++ s_CRLF ++
  s_lit "Sec-WebSocket-Key: " ++ key ++ s_CRLF ++
  s_lit "Sec-WebSocket-Version: 13" ++ s_CRLF ++
  s_CRLF.

(** [while b'\r\n\r\n' not in response: chunk = sock.recv(1024) ...] *)
Fixpoint read_response (events : list recv_event) (response : bytes)
  : io bytes * list recv_event :=
  if bytes_in (CRLF ++ CRLF) response then (Done response, events)
  else
    match events with
    | [] => (Wait, [])
    | Chunk [] :: evs =>
      (Fail (WebSocketError (s_lit "Connection closed during handshake")), evs)
    | Chunk c :: evs => read_response evs (response ++ c)
    | RecvRaises x :: evs => (Fail x, evs)
    end.

(** [SimpleWebSocket.connect] from the handshake on (the socket is already
    connected).  On success the receive thread is started; [connect] itself
    hands nothing of [response] to it. *)
Definition connect (e : env) (path host key : pystr) (events : list recv_event)
           (st : conn) : io unit * conn * list recv_event :=
  match encode_utf8 (handshake_request path host key) with
  | Raise x => (Fail x, st, events)
  | Ok request =>
    match sendall e st request with
    | (Raise x, st) => (Fail x, st, events)
    | (Ok _, st) =>
      (* Read response *)
      match read_response events [] with
      | (Wait, evs) => (Wait, st, evs)
      | (Fail x, evs) => (Fail x, st, evs)
      | (Done response, evs) =>
        match decode_utf8 response with
        | Raise x => (Fail x, st, evs)
        | Ok response_str =>
          if negb (str_in (s_lit "101") response_str) then
            (Fail (WebSocketError
                     (s_lit "WebSocket handshake failed: " ++ firstn 200 response_str)),
             st, evs)
          else
            (Done tt, clear_stop (set_connected true st), evs)
        end
      end
    end
  end.

(* --------------------------------------------------------------------- *)
(** *** Receive loop                                                       *)
(* --------------------------------------------------------------------- *)

(** How the handling of one frame leaves the inner loop. *)
Inductive flow : Type :=
| Next                   (* falls through to the next iteration *)
| Break                  (* the [break] of the close branch *)
| Raised (x : exn).      (* an exception, caught by the outer [except] *)

(** The [if opcode == ...] chain under [# Handle frame]. *)
Definition handle_frame (e : env) (st : conn) (f : frame) : flow * conn :=
  if opcode f =? 1 then                         (* Text frame *)
    match decode_utf8 (payload f) with
    | Raise x => (Raised x, st)
    | Ok message =>
      match on_message e with
      | Some callback =>
        let st' := log_delivered message st in
        match callback message with
        | None => (Next, st')
        | Some x => (Raised x, st')
        end
      | None => (Next, st)
      end
    end
  else if opcode f =? 8 then                    (* Close frame *)
    (Break, set_connected false st)
  else if opcode f =? 9 then                    (* Ping *)
    match send_frame e st (payload f) 10 with   (* Pong *)
    | (Ok _, st') => (Next, st')
    | (Raise x, st') => (Raised x, st')
    end
  else (Next, st).

(** How the inner [while len(buffer) >= 2] ends. *)
Inductive inner : Type :=
| InnerDone              (* condition false, or a [break] *)
| InnerRaised (x : exn)
| InnerFuel.             (* the model's fuel ran out; see [process_buffer] *)

(** The inner loop.  Every iteration that does not leave the loop removes
    at least two bytes from the buffer, so [fuel] above the buffer's length
    is never used up. *)
Fixpoint parse_frames (fuel : nat) (e : env) (st : conn) (buffer : bytes)
  : inner * conn * bytes :=
  match fuel with
  | O => (InnerFuel, st, buffer)
  | S fuel' =>
    match decode_step buffer with
    | NeedMoreData => (InnerDone, st, buffer)
    | Decoded f rest =>
      match handle_frame e st f with
      | (Next, st') => parse_frames fuel' e st' rest
      | (Break, st') => (InnerDone, st', rest)
      | (Raised x, st') => (InnerRaised x, st', rest)
      end
    end
  end.

Definition process_buffer (e : env) (st : conn) (buffer : bytes)
  : inner * conn * bytes :=
  parse_frames (S (List.length buffer)) e st buffer.

Inductive loop_status : Type :=
| Exited                 (* the thread has left [_receive_loop] *)
| Running.               (* the thread waits in [recv] *)

(** The [except Exception] handler followed by the loop's exit.  An
    exception of class [socket.timeout] does not come here: the handler
    before this one catches it and the loop continues. *)
Definition on_exception (x : exn) (st : conn) : conn :=
  set_connected false (if stop_event st then st else log_printed x st).

(** [SimpleWebSocket._receive_loop], with [buffer] the local variable of
    that name; the thread starts it with [buffer = b'']. *)
Fixpoint receive_loop (e : env) (events : list recv_event) (st : conn) (buffer : bytes)
  : loop_status * conn * bytes :=
  if negb (stop_event st) && connected st then
    match events with
    | [] => (Running, st, buffer)
    | RecvRaises SocketTimeout :: evs => receive_loop e evs st buffer
    | RecvRaises x :: evs => (Exited, on_exception x st, buffer)
    | Chunk [] :: evs => (Exited, set_connected false st, buffer)
    | Chunk chunk :: evs =>
      let buffer := buffer ++ chunk in
      match process_buffer e st buffer with
      | (InnerRaised SocketTimeout, st', buffer') => receive_loop e evs st' buffer'
      | (InnerRaised x, st', buffer') => (Exited, on_exception x st', buffer')
      | (_, st', buffer') => receive_loop e evs st' buffer'
      end
    end
  else (Exited, set_connected false st, buffer).

(** A whole session on one socket: [connect], then the receive thread. *)
Definition session (e : env) (path host key : pystr) (events : list recv_event)
  : io loop_status * conn * bytes :=
  match connect e path host key events init with
  | (Done _, st, evs) =>
    let '(status, st', buffer) := receive_loop e evs st [] in
    (Done status, st', buffer)
  | (Fail x, st, _) => (Fail x, st, [])
  | (Wait, st, _) => (Wait, st, [])
  end.

(* ===================================================================== *)
(** ** Closing, and the game client on top                                 *)
(* ===================================================================== *)

(** A [SimpleWebSocket] with its socket attribute: [has_socket] tells
    whether [self._socket] holds a socket.  [connect] as modelled above
    starts where the socket has just been stored. *)
Record client : Type := Client {
  ws : conn;
  has_socket : bool
}.

Definition set_stop (st : conn) : conn :=
  Conn (connected st) true (sent st) (delivered st) (printed st) (urandom_calls st).

(** [SimpleWebSocket.close]: both [try] blocks swallow every exception, so
    the outcome of [_send_frame] is dropped and only its effects remain. *)
Definition close (e : env) (c : client) : client :=
  let st := set_connected false (set_stop (ws c)) in
  if has_socket c then
    (* Send close frame *)
    let st := snd (send_frame e st [] 8) in
    (* self._socket.close(); self._socket = None *)
    Client st false
  else Client st (has_socket c).

(** [SimpleWebSocket.connect] on a client, from [self._socket = sock] on. *)
Definition client_connect (e : env) (path host key : pystr) (events : list recv_event)
           (c : client) : io unit * client * list recv_event :=
  let '(r, st, evs) := connect e path host key events (ws c) in
  (r, Client st true, evs).

(** [str.replace(old, new)]: the occurrences of [old] are replaced from
    left to right, without overlap; [skip] counts the characters of an
    occurrence that are still to be passed over. *)
Fixpoint replace_from (old new : pystr) (skip : nat) (s : pystr) : pystr :=
  match s with
  | [] => []
  | c :: tl =>
    match skip with
    | S k => replace_from old new k tl
    | O =>
      if starts_with Z.eqb old s
      then new ++ replace_from old new (List.length old - 1) tl
      else c :: replace_from old new O tl
    end
  end.

Definition str_replace (old new s : pystr) : pystr :=
  match old with
  | [] => new ++ flat_map (fun c => c :: new) s
  | _ :: _ => replace_from old new 0 s
  end.

(** The URL [GameWebSocket.connect] builds from the server's HTTP(S) URL. *)
Definition game_ws_url (server_url session_id player_id : pystr) : pystr :=
  (* Convert HTTP(S) URL to WS(S) *)
  let ws_url := str_replace (s_lit "http://") (s_lit "ws://")
                  (str_replace (s_lit "https://") (s_lit "wss://") server_url) in
  ws_url ++ s_lit "/ws/games/" ++ session_id ++ s_lit "?playerId=" ++ player_id.

(** What [json.loads] can return.  A float is kept as its literal; a dict
    is the list of its items, each key once. *)
#[local] Set Warnings "-register-all".
Inductive pyvalue : Type :=
| PyNone
| PyBool (b : bool)
| PyInt (z : Z)
| PyFloat (literal : pystr)
| PyStr (s : pystr)
| PyList (items : list pyvalue)
| PyDict (items : list (pystr * pyvalue)).
#[local] Set Warnings "+register-all".

Definition pystr_eqb (a b : pystr) : bool :=
  (List.length a =? List.length b)%nat && starts_with Z.eqb a b.

(** [d.get(key, default)] on the items of a dict. *)
Fixpoint dict_get (items : list (pystr * pyvalue)) (key : pystr) (default : pyvalue)
  : pyvalue :=
  match items with
  | [] => default
  | (k, v) :: tl => if pystr_eqb k key then v else dict_get tl key default
  end.

(** [v == 'literal'] for a value [v]: only an equal [str] compares equal. *)
Definition is_str (v : pyvalue) (literal : pystr) : bool :=
  match v with
  | PyStr s => pystr_eqb s literal
  | _ => false
  end.

(** What a call inside [_handle_message] can raise, as far as the method
    tells the classes apart. *)
Inductive raised : Type :=
| JSONDecodeError
| AttributeError
| OtherError (x : exn).

(** A handler given to [GameWebSocket]: applied to its argument it tells
    what the call raises ([None] when it returns). *)
Definition handler : Type := pyvalue -> option raised.

(** The five optional callbacks of [GameWebSocket]. *)
Record handlers : Type := Handlers {
  on_game_update : option handler;
  on_opponent_move : option handler;
  on_player_joined : option handler;
  on_resignation : option handler;
  on_error : option handler
}.

(** The handler calls [_handle_message] makes, with their arguments. *)
Inductive call : Type :=
| GameUpdate (data : pyvalue)
| OpponentMove (data : pyvalue)
| PlayerJoined (data : pyvalue)
| Resignation (data : pyvalue)
| ErrorReport (arg : pyvalue).

(** The [except json.JSONDecodeError] block, entered after [calls]. *)
Definition report_invalid (h : handlers) (message : pystr) (calls : list call)
  : list call * option raised :=
  match on_error h with
  | Some f =>
    let arg := PyStr (s_lit "Invalid message: " ++ message) in
    (calls ++ [ErrorReport arg], f arg)
  | None => (calls, None)
  end.

(** [if self.on_x: self.on_x(arg)] inside the [try]. *)
Definition invoke (h : handlers) (message : pystr) (cb : option handler)
           (mk : pyvalue -> call) (arg : pyvalue) : list call * option raised :=
  match cb with
  | Some f =>
    match f arg with
    | Some JSONDecodeError => report_invalid h message [mk arg]
    | r => ([mk arg], r)
    end
  | None => ([], None)
  end.

(** [GameWebSocket._handle_message]; [json_loads] is [json.loads], [None]
    standing for [JSONDecodeError].  The result is the handler calls made,
    in order, and the exception that leaves the method, if any. *)
Definition handle_message (json_loads : pystr -> option pyvalue) (h : handlers)
           (message : pystr) : list call * option raised :=
  match json_loads message with
  | None => report_invalid h message []
  | Some data =>
    match data with
    | PyDict items =>
      let msg_type := dict_get items (s_lit "type") PyNone in
      if is_str msg_type (s_lit "game_update") then
        invoke h message (on_game_update h) GameUpdate data
      else if is_str msg_type (s_lit "move") then
        invoke h message (on_opponent_move h) OpponentMove data
      else if is_str msg_type (s_lit "player_joined") then
        invoke h message (on_player_joined h) PlayerJoined data
      else if is_str msg_type (s_lit "resignation") then
        invoke h message (on_resignation h) Resignation data
      else if is_str msg_type (s_lit "error") then
        invoke h message (on_error h) ErrorReport
               (dict_get items (s_lit "message") (PyStr (s_lit "Unknown error")))
      else ([], None)
    | _ => ([], Some AttributeError)        (* data.get on a non-dict *)
    end
  end.

(** [_handle_message] as the [on_message] callback of the socket.  The
    receive loop tells [socket.timeout] from every other exception and
    nothing more, so the other classes are passed as [CallbackError]. *)
Definition as_exn (r : raised) : exn :=
  match r with
  | OtherError x => x
  | _ => CallbackError
  end.

Definition game_callback (json_loads : pystr -> option pyvalue) (h : handlers)
  : pystr -> option exn :=
  fun message => option_map as_exn (snd (handle_message json_loads h message)).

(** [GameWebSocket]: [self._ws] and the two methods that look at it. *)
Definition game_connected (g : option client) : bool :=
  match g with
  | Some c => connected (ws c)
  | None => false
  end.

Definition disconnect (e : env) (g : option client) : option client * option client :=
  match g with
  | Some c => (None, Some (close e c))      (* new self._ws, the closed socket *)
  | None => (None, None)
  end.

(* ===================================================================== *)
(** ** Definitions used to state the properties                            *)
(* ===================================================================== *)

(** The second header byte and the extended length of a frame whose body
    has [n] bytes, in the shortest of the three forms. *)
Definition length_field (mask_bit : bool) (n : Z) : bytes :=
  let m := if mask_bit then 128 else 0 in
  if n <=? 125 then [byte.of_Z (Z.lor m n)]
  else if n <=? 65535 then byte.of_Z (Z.lor m 126) :: be_digits 2 n
  else byte.of_Z (Z.lor m 127) :: be_digits 8 n.

Definition key_field (key : option mask_key) : bytes :=
  match key with
  | Some k => key_bytes k
  | None => []
  end.

Definition has_key (key : option mask_key) : bool :=
  match key with
  | Some _ => true
  | None => false
  end.

(** The layout of a frame on the wire (RFC 6455, section 5.2): first byte,
    second byte with the mask bit and the length in its shortest form, the
    masking key when there is one, and [body], the payload bytes as they
    travel.  [_send_frame] produces this layout ([frame_bytes_wire]); a
    server sends it without a key. *)
Definition wire_frame (b0 : byte) (key : option mask_key) (body : bytes) : bytes :=
  b0 :: length_field (has_key key) (len body) ++ key_field key ++ body.

(** What the decoder makes of the body of a frame. *)
Definition unmasked (key : option mask_key) (body : bytes) : bytes :=
  match key with
  | Some k => xor_mask (key_bytes k) body
  | None => body
  end.

(** The part of [decode_step] that reads the header: the mask flag, the
    payload length and the header length (key included). *)
Definition parse_header (buffer : bytes) : option (bool * Z * Z) :=
  match buffer with
  | b0 :: b1 :: _ =>
    let masked := negb (Z.land (byte.unsigned b1) 128 =? 0) in
    let payload_len := Z.land (byte.unsigned b1) 127 in
    let ext :=
      if payload_len =? 126 then
        if len buffer <? 4 then None
        else Some (int_from_bytes (slice buffer 2 4), 4)
      else if payload_len =? 127 then
        if len buffer <? 10 then None
        else Some (int_from_bytes (slice buffer 2 10), 10)
      else Some (payload_len, 2) in
    match ext with
    | None => None
    | Some (payload_len, header_len) =>
      Some (masked, payload_len, if masked then header_len + 4 else header_len)
    end
  | _ => None
  end.

(** The iterations of the inner loop that fall through to the next one:
    [inner_reaches e st buffer st' buffer'] when, started on [st] and
    [buffer], the loop comes to the head of an iteration with [st'] and
    [buffer']. *)
Inductive inner_reaches (e : env) : conn -> bytes -> conn -> bytes -> Prop :=
| reaches_here : forall st buffer, inner_reaches e st buffer st buffer
| reaches_next : forall st buffer f rest st1 st' buffer',
    decode_step buffer = Decoded f rest ->
    handle_frame e st f = (Next, st1) ->
    inner_reaches e st1 rest st' buffer' ->
    inner_reaches e st buffer st' buffer'.

(** The state of a connection after [items] were handed to the callback. *)
Definition deliver_all (items : list pystr) (st : conn) : conn :=
  fold_left (fun s m => log_delivered m s) items st.

(** A text frame as a server sends it: FIN set, no key. *)
Definition server_text (data : bytes) : bytes := wire_frame Byte.x81 None data.

(** Concrete data for the examples. *)
Definition key_1234 : mask_key := MaskKey Byte.x01 Byte.x02 Byte.x03 Byte.x04.

(** A callback that returns, keys [01 02 03 04], a socket that accepts
    every write. *)
Definition quiet_env : env := Env (Some (fun _ => None)) (fun _ => key_1234) (fun _ => None).

(** The state [connect] leaves on success when nothing was logged. *)
Definition open_conn : conn := Conn true false [] [] [] 0.

Definition text_hi_unmasked : bytes := [Byte.x81; Byte.x02; Byte.x68; Byte.x69].
Definition text_hi_no_fin : bytes := [Byte.x01; Byte.x02; Byte.x68; Byte.x69].
Definition close_unmasked : bytes := [Byte.x88; Byte.x00].
Definition ping_abc_unmasked : bytes := [Byte.x89; Byte.x03; Byte.x61; Byte.x62; Byte.x63].
Definition reserved3_unmasked : bytes := [Byte.x83; Byte.x00].

Definition response_101 : bytes :=
  b_lit "HTTP/1.1 101 Switching Protocols" ++ CRLF ++ CRLF.
Definition response_404 : bytes :=
  b_lit "HTTP/1.1 404 Not Found" ++ CRLF ++ CRLF.
Definition response_404_with_101 : bytes :=
  b_lit "HTTP/1.1 404 Not Found" ++ CRLF ++ b_lit "Content-Length: 101" ++ CRLF ++ CRLF.

(* ===================================================================== *)
(** ** Tactics                                                             *)
(* ===================================================================== *)

(** Linear arithmetic with division and remainder by constants. *)
Ltac zlia := Z.to_euclidean_division_equations; lia.

(** Replace the integer tests of the goal by their values. *)
Ltac settle_tests :=
  repeat match goal with
         | |- context [?a <? ?b] =>
           first [ replace (a <? b) with true by (symmetry; apply Z.ltb_lt; zlia)
                 | replace (a <? b) with false by (symmetry; apply Z.ltb_ge; zlia) ]
         | |- context [?a <=? ?b] =>
           first [ replace (a <=? b) with true by (symmetry; apply Z.leb_le; zlia)
                 | replace (a <=? b) with false by (symmetry; apply Z.leb_gt; zlia) ]
         | |- context [?a =? ?b] =>
           first [ replace (a =? b) with true by (symmetry; apply Z.eqb_eq; zlia)
                 | replace (a =? b) with false by (symmetry; apply Z.eqb_neq; zlia) ]
         end.

(** Case analysis on the [<=?] tests of hypothesis [H]. *)
Ltac split_tests H :=
  repeat match type of H with
         | context [?a <=? ?b] => destruct (Z.leb_spec a b); cbv beta iota delta [andb] in H
         end.

(* ===================================================================== *)
(** ** Lists, slices and integers                                          *)
(* ===================================================================== *)

Lemma len_app {A : Type} (a b : list A) : len (a ++ b) = len a + len b.
Proof. unfold len. rewrite length_app. lia. Qed.

Lemma len_nonneg {A : Type} (a : list A) : 0 <= len a.
Proof. unfold len. lia. Qed.

Lemma len_cons {A : Type} (x : A) (a : list A) : len (x :: a) = 1 + len a.
Proof. unfold len. simpl List.length. lia. Qed.

Lemma slice_app_mid {A : Type} (a b c : list A) (lo hi : Z) :
  lo = len a -> hi = lo + len b -> slice (a ++ b ++ c) lo hi = b.
Proof.
  intros -> ->. unfold slice, len.
  replace (Z.to_nat (Z.of_nat (List.length a) + Z.of_nat (List.length b)
                     - Z.of_nat (List.length a))) with (List.length b) by lia.
  rewrite Nat2Z.id, skipn_app, skipn_all, Nat.sub_diag. simpl.
  rewrite firstn_app, firstn_all, Nat.sub_diag. simpl. apply app_nil_r.
Qed.

Lemma slice_from_app {A : Type} (a b : list A) (lo : Z) :
  lo = len a -> slice_from (a ++ b) lo = b.
Proof.
  intros ->. unfold slice_from, len.
  rewrite Nat2Z.id, skipn_app, skipn_all, Nat.sub_diag. reflexivity.
Qed.

Lemma slice_app_l {A : Type} (l more : list A) (lo hi : Z) :
  0 <= lo -> hi <= len l -> slice (l ++ more) lo hi = slice l lo hi.
Proof.
  intros Hlo Hhi. unfold slice, len in *.
  destruct (Z_le_gt_dec hi lo) as [Hle | Hgt].
  - replace (Z.to_nat (hi - lo)) with O by lia. reflexivity.
  - rewrite skipn_app, firstn_app, length_skipn.
    replace (Z.to_nat lo - List.length l)%nat with O by lia.
    replace (Z.to_nat (hi - lo) - (List.length l - Z.to_nat lo))%nat with O by lia.
    simpl. apply app_nil_r.
Qed.

Lemma slice_from_app_l {A : Type} (l more : list A) (lo : Z) :
  lo <= len l -> slice_from (l ++ more) lo = slice_from l lo ++ more.
Proof.
  intros Hlo. unfold slice_from, len in *. rewrite skipn_app.
  replace (Z.to_nat lo - List.length l)%nat with O by lia. reflexivity.
Qed.

Lemma slice_length {A : Type} (l : list A) (lo hi : Z) :
  0 <= lo -> lo <= hi -> hi <= len l -> len (slice l lo hi) = hi - lo.
Proof.
  intros H1 H2 H3. unfold slice, len in *.
  rewrite length_firstn, length_skipn. lia.
Qed.

Lemma slice_from_length {A : Type} (l : list A) (lo : Z) :
  0 <= lo -> lo <= len l -> len (slice_from l lo) = len l - lo.
Proof.
  intros H1 H2. unfold slice_from, len in *. rewrite length_skipn. lia.
Qed.

Lemma be_digits_length (n : nat) (v : Z) : List.length (be_digits n v) = n.
Proof. induction n; simpl; congruence. Qed.

Lemma from_bytes_acc (bs : bytes) (acc : Z) :
  fold_left (fun a b => a * 256 + byte.unsigned b) bs acc
  = acc * 256 ^ len bs + int_from_bytes bs.
Proof.
  unfold int_from_bytes. revert acc.
  induction bs as [| b bs IH]; intros acc.
  - simpl. unfold len. simpl. lia.
  - simpl fold_left. rewrite IH, (IH (byte.unsigned b)).
    rewrite len_cons, Z.pow_add_r by (try apply len_nonneg; lia). lia.
Qed.

Lemma int_from_bytes_cons (b : byte) (bs : bytes) :
  int_from_bytes (b :: bs) = byte.unsigned b * 256 ^ len bs + int_from_bytes bs.
Proof.
  unfold int_from_bytes at 1. simpl fold_left. apply from_bytes_acc.
Qed.

Lemma int_from_bytes_range (bs : bytes) :
  0 <= int_from_bytes bs < 256 ^ len bs.
Proof.
  induction bs as [| b bs IH].
  - unfold int_from_bytes, len. simpl. lia.
  - rewrite int_from_bytes_cons, len_cons.
    rewrite Z.pow_add_r by (try apply len_nonneg; lia).
    pose proof (byte.unsigned_range b) as Hb.
    assert (0 < 256 ^ len bs) by (apply Z.pow_pos_nonneg; [lia | apply len_nonneg]).
    change (2 ^ 8) with 256 in Hb. nia.
Qed.

(** [int.from_bytes] undoes [int.to_bytes] (both big-endian). *)
Lemma from_bytes_be_digits (n : nat) (v : Z) :
  int_from_bytes (be_digits n v) = v mod 256 ^ Z.of_nat n.
Proof.
  induction n as [| k IH].
  - simpl. unfold int_from_bytes. simpl. rewrite Z.mod_1_r. reflexivity.
  - cbn [be_digits]. rewrite int_from_bytes_cons, IH.
    unfold len. rewrite be_digits_length, byte.unsigned_of_Z. unfold byte.wrap.
    rewrite Nat2Z.inj_succ, Z.pow_succ_r by lia.
    assert (Hp : 0 < 256 ^ Z.of_nat k) by (apply Z.pow_pos_nonneg; lia).
    change (2 ^ 8) with 256.
    rewrite (Z.mul_comm 256 (256 ^ Z.of_nat k)).
    rewrite Z.rem_mul_r by lia. lia.
Qed.

Lemma int_roundtrip (n : nat) (v : Z) (bs : bytes) :
  int_to_bytes v n = Ok bs -> int_from_bytes bs = v /\ List.length bs = n.
Proof.
  unfold int_to_bytes.
  destruct ((0 <=? v) && (v <? 256 ^ Z.of_nat n)) eqn:E; [| discriminate].
  intros [= <-]. apply andb_true_iff in E. destruct E as [E1 E2].
  rewrite from_bytes_be_digits, be_digits_length. split; [| reflexivity].
  apply Z.mod_small. lia.
Qed.

(* ===================================================================== *)
(** ** UTF-8                                                               *)
(* ===================================================================== *)

Lemma unsigned_of_Z_small (z : Z) : 0 <= z < 256 -> byte.unsigned (byte.of_Z z) = z.
Proof.
  intros H. rewrite byte.unsigned_of_Z. unfold byte.wrap. apply Z.mod_small.
  change (2 ^ 8) with 256. lia.
Qed.

Lemma utf8_decode_cons (b0 : byte) (t0 : bytes) :
  utf8_decode (b0 :: t0) =
    let x0 := byte.unsigned b0 in
    if x0 <? 128 then option_map (cons x0) (utf8_decode t0)
    else if between 194 223 x0 then
      match t0 with
      | b1 :: t1 =>
        if is_cont b1
        then option_map (cons ((x0 - 192) * 64 + cont_bits b1)) (utf8_decode t1)
        else None
      | _ => None
      end
    else if between 224 239 x0 then
      match t0 with
      | b1 :: b2 :: t2 =>
        let lo := if x0 =? 224 then 160 else 128 in
        let hi := if x0 =? 237 then 159 else 191 in
        if between lo hi (byte.unsigned b1) && is_cont b2
        then option_map
               (cons ((x0 - 224) * 4096 + cont_bits b1 * 64 + cont_bits b2))
               (utf8_decode t2)
        else None
      | _ => None
      end
    else if between 240 244 x0 then
      match t0 with
      | b1 :: b2 :: b3 :: t3 =>
        let lo := if x0 =? 240 then 144 else 128 in
        let hi := if x0 =? 244 then 143 else 191 in
        if between lo hi (byte.unsigned b1) && is_cont b2 && is_cont b3
        then option_map
               (cons ((x0 - 240) * 262144 + cont_bits b1 * 4096
                      + cont_bits b2 * 64 + cont_bits b3))
               (utf8_decode t3)
        else None
      | _ => None
      end
    else None.
Proof. reflexivity. Qed.

Lemma some_eq {A : Type} (x y : A) : Some x = Some y -> x = y.
Proof. congruence. Qed.

(** One encoded code point at the front of a buffer decodes to itself. *)
Lemma utf8_decode_encode_cp (c : Z) (b rest : bytes) :
  utf8_encode_cp c = Some b ->
  utf8_decode (b ++ rest) = option_map (cons c) (utf8_decode rest).
Proof.
  unfold utf8_encode_cp, between. intros H.
  split_tests H; try discriminate; try (exfalso; lia);
    apply some_eq in H; subst b;
    cbv beta iota fix delta [app]; rewrite utf8_decode_cons; cbv beta iota zeta;
    unfold is_cont, cont_bits, between;
    rewrite !unsigned_of_Z_small by zlia;
    repeat match goal with
           | |- context [?a =? ?b] => destruct (Z.eqb_spec a b); cbv beta iota
           end;
    settle_tests; cbv beta iota delta [andb]; do 2 f_equal; zlia.
Qed.

(** [s.encode('utf-8').decode('utf-8') == s] *)
Lemma utf8_roundtrip (s : pystr) (bs : bytes) :
  utf8_encode s = Some bs -> utf8_decode bs = Some s.
Proof.
  revert bs. induction s as [| c s IH]; intros bs; cbn [utf8_encode].
  - intros [= <-]. reflexivity.
  - destruct (utf8_encode_cp c) as [b |] eqn:Hc; [| discriminate].
    destruct (utf8_encode s) as [bs' |]; [| discriminate].
    intros [= <-]. rewrite (utf8_decode_encode_cp c b bs' Hc), (IH bs' eq_refl).
    reflexivity.
Qed.

(* ===================================================================== *)
(** ** Masking                                                             *)
(* ===================================================================== *)

Lemma byte_small (b : byte) : byte.unsigned b mod 2 ^ 8 = byte.unsigned b.
Proof. apply Z.mod_small, byte.unsigned_range. Qed.

Lemma land_lxor_distr (a b c : Z) :
  Z.land (Z.lxor a b) c = Z.lxor (Z.land a c) (Z.land b c).
Proof.
  apply Z.bits_inj. intros n.
  rewrite Z.lxor_spec, !Z.land_spec, Z.lxor_spec.
  destruct (Z.testbit a n), (Z.testbit b n), (Z.testbit c n); reflexivity.
Qed.

Lemma unsigned_xor (a b : byte) :
  byte.unsigned (byte.xor a b) = Z.lxor (byte.unsigned a) (byte.unsigned b).
Proof.
  unfold byte.xor. rewrite byte.unsigned_of_Z. unfold byte.wrap.
  rewrite <- Z.land_ones by lia.
  rewrite land_lxor_distr, !Z.land_ones by lia.
  rewrite !byte_small. reflexivity.
Qed.

Lemma xor_twice (a b : byte) : byte.xor (byte.xor a b) b = a.
Proof.
  apply byte.unsigned_inj. rewrite !unsigned_xor.
  rewrite Z.lxor_assoc, Z.lxor_nilpotent, Z.lxor_0_r. reflexivity.
Qed.

Lemma xor_from_twice (mask data : bytes) (i : nat) :
  xor_from i mask (xor_from i mask data) = data.
Proof.
  revert i. induction data as [| b tl IH]; intros i; simpl.
  - reflexivity.
  - rewrite xor_twice, IH. reflexivity.
Qed.

(** Masking twice with the same key gives the data back. *)
Lemma xor_mask_twice (mask data : bytes) :
  xor_mask mask (xor_mask mask data) = data.
Proof. apply xor_from_twice. Qed.

Lemma xor_from_length (mask data : bytes) (i : nat) :
  List.length (xor_from i mask data) = List.length data.
Proof. revert i. induction data; intros; simpl; auto. Qed.

Lemma xor_mask_len (mask data : bytes) : len (xor_mask mask data) = len data.
Proof. unfold len, xor_mask. rewrite xor_from_length. reflexivity. Qed.

Lemma xor_from_nth (mask data : bytes) (i j : nat) :
  (j < List.length data)%nat ->
  nth j (xor_from i mask data) Byte.x00
  = byte.xor (nth j data Byte.x00) (nth ((i + j) mod 4)%nat mask Byte.x00).
Proof.
  revert i j. induction data as [| b tl IH]; intros i j Hj; simpl in Hj.
  - lia.
  - destruct j as [| j]; cbn [xor_from nth].
    + rewrite Nat.add_0_r. reflexivity.
    + rewrite IH by lia. do 3 f_equal. lia.
Qed.

(** Byte [i] of the unmasked payload is byte [i] of the body XOR byte
    [i % 4] of the key. *)
Lemma xor_mask_nth (mask data : bytes) (i : nat) :
  (i < List.length data)%nat ->
  nth i (xor_mask mask data) Byte.x00
  = byte.xor (nth i data Byte.x00) (nth (i mod 4)%nat mask Byte.x00).
Proof. intros H. unfold xor_mask. rewrite xor_from_nth by assumption. reflexivity. Qed.

(* ===================================================================== *)
(** ** The decoder                                                         *)
(* ===================================================================== *)

(** [decode_step] in terms of [parse_header]. *)
Lemma decode_step_unfold (buffer : bytes) :
  decode_step buffer =
  match parse_header buffer with
  | None => NeedMoreData
  | Some (m, p, h) =>
    if len buffer <? h + p then NeedMoreData
    else Decoded
           (Frame (hd Byte.x00 buffer) (Z.land (byte.unsigned (hd Byte.x00 buffer)) 15) m
                  (if m then xor_mask (slice buffer (h - 4) h) (slice buffer h (h + p))
                   else slice buffer h (h + p))
                  (h + p))
           (slice_from buffer (h + p))
  end.
Proof.
  unfold decode_step, parse_header.
  destruct buffer as [| b0 [| b1 tl]]; try reflexivity.
  cbn [hd].
  destruct (Z.land (byte.unsigned b1) 127 =? 126).
  - destruct (len (b0 :: b1 :: tl) <? 4); reflexivity.
  - destruct (Z.land (byte.unsigned b1) 127 =? 127).
    + destruct (len (b0 :: b1 :: tl) <? 10); reflexivity.
    + reflexivity.
Qed.

Lemma land_127_range (x : Z) : 0 <= Z.land x 127 < 128.
Proof.
  change 127 with (Z.ones 7). rewrite Z.land_ones by lia.
  apply Z.mod_pos_bound. lia.
Qed.

(** What [parse_header] returns: a length below 2^64 and a header of 2 to
    14 bytes, 4 of them the key when the mask bit is set. *)
Lemma parse_header_range (buffer : bytes) (m : bool) (p h : Z) :
  parse_header buffer = Some (m, p, h) ->
  0 <= p < 2 ^ 64 /\ 2 <= h - (if m then 4 else 0) <= 10.
Proof.
  unfold parse_header. destruct buffer as [| b0 [| b1 tl]]; try discriminate.
  pose proof (land_127_range (byte.unsigned b1)) as Hr.
  destruct (Z.land (byte.unsigned b1) 127 =? 126).
  - destruct (len (b0 :: b1 :: tl) <? 4) eqn:E; [discriminate |].
    intros [= <- <- <-].
    pose proof (int_from_bytes_range (slice (b0 :: b1 :: tl) 2 4)) as Hb.
    rewrite slice_length in Hb by (rewrite ?len_cons in *; lia).
    change (256 ^ (4 - 2)) with 65536 in Hb.
    destruct (negb _); lia.
  - destruct (Z.land (byte.unsigned b1) 127 =? 127).
    + destruct (len (b0 :: b1 :: tl) <? 10) eqn:E; [discriminate |].
      intros [= <- <- <-].
      pose proof (int_from_bytes_range (slice (b0 :: b1 :: tl) 2 10)) as Hb.
      rewrite slice_length in Hb by (rewrite ?len_cons in *; lia).
      change (256 ^ (10 - 2)) with (2 ^ 64) in Hb.
      destruct (negb _); lia.
    + intros [= <- <- <-]. destruct (negb _); lia.
Qed.

(** The header is read from the front of the buffer only: more bytes behind
    it change nothing. *)
Lemma parse_header_app (buffer more : bytes) (x : bool * Z * Z) :
  parse_header buffer = Some x -> parse_header (buffer ++ more) = Some x.
Proof.
  unfold parse_header. destruct buffer as [| b0 [| b1 tl]]; try discriminate.
  cbn [app].
  change (b0 :: b1 :: tl ++ more) with ((b0 :: b1 :: tl) ++ more).
  destruct (Z.land (byte.unsigned b1) 127 =? 126).
  - destruct (len (b0 :: b1 :: tl) <? 4) eqn:E; [discriminate |].
    apply Z.ltb_ge in E.
    assert (E' : (len ((b0 :: b1 :: tl) ++ more) <? 4) = false).
    { apply Z.ltb_ge. rewrite len_app. pose proof (len_nonneg more). lia. }
    rewrite E'. rewrite slice_app_l by lia. trivial.
  - destruct (Z.land (byte.unsigned b1) 127 =? 127).
    + destruct (len (b0 :: b1 :: tl) <? 10) eqn:E; [discriminate |].
      apply Z.ltb_ge in E.
      assert (E' : (len ((b0 :: b1 :: tl) ++ more) <? 10) = false).
      { apply Z.ltb_ge. rewrite len_app. pose proof (len_nonneg more). lia. }
      rewrite E'. rewrite slice_app_l by lia. trivial.
    + trivial.
Qed.

(** A decoded frame says how the buffer was cut. *)
Lemma decode_step_inv (buffer rest : bytes) (f : frame) :
  decode_step buffer = Decoded f rest ->
  exists h p,
    parse_header buffer = Some (masked f, p, h) /\
    total_len f = h + p /\ total_len f <= len buffer /\
    first_byte f = hd Byte.x00 buffer /\
    opcode f = Z.land (byte.unsigned (first_byte f)) 15 /\
    payload f = (if masked f
                 then xor_mask (slice buffer (h - 4) h) (slice buffer h (h + p))
                 else slice buffer h (h + p)) /\
    rest = slice_from buffer (h + p).
Proof.
  rewrite decode_step_unfold.
  destruct (parse_header buffer) as [[[m p] h] |] eqn:Hh; [| discriminate].
  destruct (len buffer <? h + p) eqn:E; [discriminate |].
  apply Z.ltb_ge in E. intros [= <- <-]. cbn.
  exists h, p. repeat split; trivial.
Qed.

(** Payload and consumed length of a decoded frame: the payload has the
    announced length, below 2^64; at least two bytes leave the buffer. *)
Lemma decode_step_sizes (buffer rest : bytes) (f : frame) :
  decode_step buffer = Decoded f rest ->
  0 <= len (payload f) < 2 ^ 64 /\
  2 <= total_len f <= len buffer /\
  len rest = len buffer - total_len f.
Proof.
  intros H. apply decode_step_inv in H.
  destruct H as (h & p & Hh & Ht & Hle & _ & _ & Hp & Hr).
  apply parse_header_range in Hh. destruct Hh as [Hp1 Hh1].
  assert (Hlen : len (payload f) = p).
  { rewrite Hp. destruct (masked f); cbn in Hh1.
    - rewrite xor_mask_len, slice_length by lia. lia.
    - rewrite slice_length by lia. lia. }
  destruct (masked f); cbn in Hh1;
    rewrite Hlen, Hr, slice_from_length by lia; lia.
Qed.

Lemma decode_step_shrinks (buffer rest : bytes) (f : frame) :
  decode_step buffer = Decoded f rest ->
  (List.length rest + 2 <= List.length buffer)%nat.
Proof.
  intros H. apply decode_step_sizes in H. unfold len in H. lia.
Qed.

(** Bytes that follow a complete frame do not change what is decoded; they
    stay in the buffer. *)
Lemma decode_step_app (buffer more rest : bytes) (f : frame) :
  decode_step buffer = Decoded f rest ->
  decode_step (buffer ++ more) = Decoded f (rest ++ more).
Proof.
  intros H. pose proof (decode_step_sizes _ _ _ H) as (_ & Hsz & _).
  apply decode_step_inv in H.
  destruct H as (h & p & Hh & Ht & Hle & Hb & Ho & Hp & Hr).
  pose proof (parse_header_range _ _ _ _ Hh) as [Hp1 Hh1].
  rewrite decode_step_unfold, (parse_header_app _ more _ Hh).
  assert (E : (len (buffer ++ more) <? h + p) = false).
  { apply Z.ltb_ge. rewrite len_app. pose proof (len_nonneg more). lia. }
  rewrite E.
  assert (Hhd : hd Byte.x00 (buffer ++ more) = hd Byte.x00 buffer).
  { destruct buffer; [unfold len in Hle; simpl in Hle; lia | reflexivity]. }
  rewrite Hhd, slice_from_app_l by lia.
  replace (Decoded f (rest ++ more))
    with (Decoded (Frame (first_byte f) (opcode f) (masked f) (payload f) (total_len f))
                  (rest ++ more)) by (destruct f; reflexivity).
  rewrite Hp, Ho, Hb, Hr, Ht.
  destruct (masked f); cbn in Hh1; rewrite !slice_app_l by lia; reflexivity.
Qed.

(** A buffer that stops before the end of its first frame gives
    [NeedMoreData]. *)
Lemma decode_step_short (buffer rest : bytes) (f : frame) (n : nat) :
  decode_step buffer = Decoded f rest ->
  Z.of_nat n < total_len f ->
  decode_step (firstn n buffer) = NeedMoreData.
Proof.
  intros H Hn. apply decode_step_inv in H.
  destruct H as (h & p & Hh & Ht & Hle & _).
  rewrite decode_step_unfold.
  destruct (parse_header (firstn n buffer)) as [[[m' p'] h'] |] eqn:Hh'; [| reflexivity].
  apply (parse_header_app _ (skipn n buffer)) in Hh'.
  rewrite firstn_skipn, Hh in Hh'. injection Hh' as <- <- <-.
  assert (E : (len (firstn n buffer) <? h + p) = true).
  { apply Z.ltb_lt. unfold len in *. rewrite length_firstn. lia. }
  rewrite E. reflexivity.
Qed.

(** The second header byte [mask_bit | n] for [n] below 128: it is a byte,
    its low seven bits are [n] and its top bit is the mask bit. *)
Lemma second_byte_fields (mask_bit : bool) (n : Z) :
  0 <= n < 128 ->
  let b1 := byte.of_Z (Z.lor (if mask_bit then 128 else 0) n) in
  Z.land (byte.unsigned b1) 127 = n /\
  negb (Z.land (byte.unsigned b1) 128 =? 0) = mask_bit.
Proof.
  intros Hn b1. subst b1. rewrite byte.unsigned_of_Z. unfold byte.wrap.
  assert (H7 : Z.land n 127 = n).
  { change 127 with (Z.ones 7). rewrite Z.land_ones by lia. apply Z.mod_small. lia. }
  assert (H8 : Z.land n 255 = n).
  { change 255 with (Z.ones 8). rewrite Z.land_ones by lia. apply Z.mod_small. lia. }
  assert (Hb : Z.land n 128 = 0).
  { rewrite <- H7, <- Z.land_assoc. change (Z.land 127 128) with 0. apply Z.land_0_r. }
  set (m := if mask_bit then 128 else 0).
  assert (Hw : Z.lor m n mod 2 ^ 8 = Z.lor m n).
  { rewrite <- Z.land_ones by lia. change (Z.ones 8) with 255.
    rewrite Z.land_lor_distr_l, H8. subst m. destruct mask_bit; reflexivity. }
  rewrite Hw, !Z.land_lor_distr_l, H7, Hb. subst m.
  destruct mask_bit; cbn; rewrite ?Z.lor_0_l; auto.
Qed.

Lemma length_field_len (mask_bit : bool) (n : Z) :
  len (length_field mask_bit n)
  = if n <=? 125 then 1 else if n <=? 65535 then 3 else 9.
Proof.
  unfold length_field.
  destruct (n <=? 125); [reflexivity |].
  destruct (n <=? 65535); unfold len; cbn [List.length];
    rewrite be_digits_length; reflexivity.
Qed.

(** The decoder reads back the header that [length_field] lays out. *)
Lemma parse_header_length_field (b0 : byte) (mask_bit : bool) (n : Z) (tail : bytes) :
  0 <= n < 2 ^ 64 ->
  parse_header (b0 :: length_field mask_bit n ++ tail)
  = Some (mask_bit, n,
          1 + len (length_field mask_bit n) + (if mask_bit then 4 else 0)).
Proof.
  intros Hn. rewrite length_field_len. unfold length_field.
  destruct (n <=? 125) eqn:E1.
  - apply Z.leb_le in E1.
    destruct (second_byte_fields mask_bit n ltac:(lia)) as [Hl Hm].
    cbn [app parse_header]. rewrite Hl, Hm.
    destruct (n =? 126) eqn:E6; [apply Z.eqb_eq in E6; lia |].
    destruct (n =? 127) eqn:E7; [apply Z.eqb_eq in E7; lia |].
    destruct mask_bit; do 3 f_equal; lia.
  - apply Z.leb_gt in E1. destruct (n <=? 65535) eqn:E2.
    + apply Z.leb_le in E2.
      destruct (second_byte_fields mask_bit 126 ltac:(lia)) as [Hl Hm].
      cbn [app parse_header be_digits]. rewrite Hl, Hm. cbn [Z.eqb Pos.eqb].
      change (slice _ 2 4) with (be_digits 2 n).
      rewrite from_bytes_be_digits.
      rewrite Z.mod_small by (change (256 ^ Z.of_nat 2) with 65536; lia).
      replace (len _ <? 4) with false
        by (symmetry; apply Z.ltb_ge; rewrite !len_cons; pose proof (len_nonneg tail); lia).
      destruct mask_bit; do 3 f_equal; lia.
    + apply Z.leb_gt in E2.
      destruct (second_byte_fields mask_bit 127 ltac:(lia)) as [Hl Hm].
      cbn [app parse_header be_digits]. rewrite Hl, Hm. cbn [Z.eqb Pos.eqb].
      change (slice _ 2 10) with (be_digits 8 n).
      rewrite from_bytes_be_digits.
      rewrite Z.mod_small by (change (256 ^ Z.of_nat 8) with (2 ^ 64); lia).
      replace (len _ <? 10) with false
        by (symmetry; apply Z.ltb_ge; rewrite !len_cons; pose proof (len_nonneg tail); lia).
      destruct mask_bit; do 3 f_equal; lia.
Qed.

(** A frame laid out as [wire_frame] decodes to its first byte, its mask
    flag and its unmasked body, whatever follows it in the buffer; exactly
    the frame's bytes are consumed. *)
Lemma decode_step_wire (b0 : byte) (key : option mask_key) (body rest : bytes) :
  len body < 2 ^ 64 ->
  decode_step (wire_frame b0 key body ++ rest)
  = Decoded (Frame b0 (Z.land (byte.unsigned b0) 15) (has_key key) (unmasked key body)
                   (len (wire_frame b0 key body)))
            rest.
Proof.
  intros Hlen. pose proof (len_nonneg body) as Hpos.
  unfold wire_frame. set (lf := length_field (has_key key) (len body)).
  assert (Hk : len (key_field key) = if has_key key then 4 else 0)
    by (destruct key; reflexivity).
  assert (Hshape : (b0 :: lf ++ key_field key ++ body) ++ rest
                   = (b0 :: lf) ++ key_field key ++ body ++ rest).
  { cbn [app]. rewrite <- !app_assoc. reflexivity. }
  rewrite decode_step_unfold, Hshape.
  replace (parse_header ((b0 :: lf) ++ key_field key ++ body ++ rest))
    with (Some (has_key key, len body, 1 + len lf + (if has_key key then 4 else 0)))
    by (symmetry; apply parse_header_length_field; lia).
  set (h := 1 + len lf + (if has_key key then 4 else 0)).
  assert (Hh : h = len (b0 :: lf) + len (key_field key))
    by (subst h; rewrite len_cons, Hk; reflexivity).
  assert (Htot : len ((b0 :: lf) ++ key_field key ++ body ++ rest)
                 = h + len body + len rest)
    by (rewrite !len_app; lia).
  replace (len _ <? h + len body) with false
    by (symmetry; apply Z.ltb_ge; rewrite Htot; pose proof (len_nonneg rest); lia).
  cbn [hd app].
  change (b0 :: lf ++ key_field key ++ body ++ rest)
    with ((b0 :: lf) ++ key_field key ++ body ++ rest).
  assert (Hbody : slice ((b0 :: lf) ++ key_field key ++ body ++ rest) h (h + len body) = body).
  { rewrite app_assoc. apply slice_app_mid; [rewrite len_app; lia | reflexivity]. }
  assert (Hrest : slice_from ((b0 :: lf) ++ key_field key ++ body ++ rest) (h + len body) = rest).
  { rewrite app_assoc, (app_assoc _ body). apply slice_from_app. rewrite !len_app. lia. }
  rewrite Hbody, Hrest. do 2 f_equal.
  - destruct key as [k |]; cbn [has_key unmasked]; [| reflexivity].
    replace (slice _ (h - 4) h) with (key_bytes k); [reflexivity |].
    symmetry. apply slice_app_mid; cbn [has_key key_field] in *; lia.
  - change (b0 :: lf ++ key_field key ++ body)
      with ((b0 :: lf) ++ key_field key ++ body).
    rewrite !len_app. lia.
Qed.

Lemma lor_byte (m n : Z) : 0 <= m < 256 -> 0 <= n < 256 -> 0 <= Z.lor m n < 256.
Proof.
  intros Hm Hn.
  assert (H : Z.lor m n mod 2 ^ 8 = Z.lor m n).
  { rewrite <- Z.land_ones, Z.land_lor_distr_l, !Z.land_ones by lia.
    rewrite !Z.mod_small by (change (2 ^ 8) with 256; lia). reflexivity. }
  rewrite <- H. apply Z.mod_pos_bound. lia.
Qed.

Lemma append_byte_lor (frame : bytes) (m n : Z) :
  0 <= m < 256 -> 0 <= n < 256 ->
  append_byte frame (Z.lor m n) = Ok (frame ++ [byte.of_Z (Z.lor m n)]).
Proof.
  intros Hm Hn. unfold append_byte. pose proof (lor_byte m n Hm Hn) as H.
  replace ((0 <=? Z.lor m n) && (Z.lor m n <? 256)) with true; [reflexivity |].
  symmetry. apply andb_true_iff. split; [apply Z.leb_le | apply Z.ltb_lt]; lia.
Qed.

(** The first byte [0x80 | opcode] of a sent frame carries the opcode in its
    low four bits. *)
Lemma first_byte_opcode (opcode : Z) :
  0 <= opcode < 16 ->
  Z.land (byte.unsigned (byte.of_Z (Z.lor 128 opcode))) 15 = opcode.
Proof.
  intros Ho. rewrite byte.unsigned_of_Z. unfold byte.wrap.
  rewrite Z.mod_small by (apply lor_byte; lia).
  rewrite Z.land_lor_distr_l. change (Z.land 128 15) with 0. rewrite Z.lor_0_l.
  change 15 with (Z.ones 4). rewrite Z.land_ones by lia. apply Z.mod_small. lia.
Qed.

(** [_send_frame] builds exactly the wire layout, with the mask bit set, a
    key, and the payload XORed with the key as body.  It cannot raise for a
    four-bit opcode and a payload shorter than 2^64 bytes. *)
Lemma frame_bytes_wire (data : bytes) (opcode : Z) (mask : mask_key) :
  0 <= opcode < 16 -> len data < 2 ^ 64 ->
  frame_bytes data opcode mask
  = Ok (wire_frame (byte.of_Z (Z.lor 128 opcode)) (Some mask)
                   (xor_mask (key_bytes mask) data)).
Proof.
  intros Ho Hlen. pose proof (len_nonneg data) as Hpos.
  unfold frame_bytes, wire_frame, length_field. rewrite xor_mask_len.
  rewrite append_byte_lor by lia. cbn [bind app has_key key_field].
  destruct (len data <=? 125) eqn:E1.
  - apply Z.leb_le in E1. rewrite append_byte_lor by lia. reflexivity.
  - destruct (len data <=? 65535) eqn:E2.
    + apply Z.leb_le in E2. rewrite append_byte_lor by lia.
      unfold int_to_bytes.
      replace ((0 <=? len data) && (len data <? 256 ^ Z.of_nat 2)) with true.
      * cbn [bind app]. rewrite <- !app_assoc. reflexivity.
      * symmetry. apply andb_true_iff.
        split; [apply Z.leb_le | apply Z.ltb_lt; change (256 ^ Z.of_nat 2) with 65536]; lia.
    + rewrite append_byte_lor by lia.
      unfold int_to_bytes.
      replace ((0 <=? len data) && (len data <? 256 ^ Z.of_nat 8)) with true.
      * cbn [bind app]. rewrite <- !app_assoc. reflexivity.
      * symmetry. apply andb_true_iff.
        split; [apply Z.leb_le | apply Z.ltb_lt; change (256 ^ Z.of_nat 8) with (2 ^ 64)]; lia.
Qed.

(** Whatever [_send_frame] returns without raising is a wire frame; the
    payload was then shorter than 2^64 bytes. *)
Lemma frame_bytes_inv (data : bytes) (opcode : Z) (mask : mask_key) (f : bytes) :
  frame_bytes data opcode mask = Ok f ->
  len data < 2 ^ 64 /\
  f = wire_frame (byte.of_Z (Z.lor 128 opcode)) (Some mask)
                 (xor_mask (key_bytes mask) data).
Proof.
  pose proof (len_nonneg data) as Hpos.
  unfold frame_bytes, wire_frame, length_field. rewrite xor_mask_len.
  unfold append_byte at 1.
  destruct ((0 <=? Z.lor 128 opcode) && (Z.lor 128 opcode <? 256)); [| discriminate].
  cbn [bind app has_key key_field].
  destruct (len data <=? 125) eqn:E1.
  - apply Z.leb_le in E1. rewrite append_byte_lor by lia.
    intros [= <-]. split; [lia | reflexivity].
  - destruct (len data <=? 65535) eqn:E2.
    + apply Z.leb_le in E2. rewrite append_byte_lor by lia.
      unfold int_to_bytes.
      destruct ((0 <=? len data) && (len data <? 256 ^ Z.of_nat 2)); [| discriminate].
      cbn [bind app]. rewrite <- !app_assoc. intros [= <-]. split; [lia | reflexivity].
    + rewrite append_byte_lor by lia.
      unfold int_to_bytes.
      destruct ((0 <=? len data) && (len data <? 256 ^ Z.of_nat 8)) eqn:E8; [| discriminate].
      apply andb_true_iff in E8. destruct E8 as [_ E8]. apply Z.ltb_lt in E8.
      change (256 ^ Z.of_nat 8) with (2 ^ 64) in E8.
      cbn [bind app]. rewrite <- !app_assoc. intros [= <-]. split; [lia | reflexivity].
Qed.

(** Decoding what [_send_frame] produced gives the payload back and
    consumes the whole frame. *)
Lemma decode_frame_bytes (data rest : bytes) (opcode : Z) (mask : mask_key) (f : bytes) :
  frame_bytes data opcode mask = Ok f ->
  decode_step (f ++ rest)
  = Decoded (Frame (byte.of_Z (Z.lor 128 opcode))
                   (Z.land (byte.unsigned (byte.of_Z (Z.lor 128 opcode))) 15)
                   true data (len f))
            rest.
Proof.
  intros H. apply frame_bytes_inv in H. destruct H as [Hlen ->].
  rewrite decode_step_wire by (rewrite xor_mask_len; assumption).
  cbn [has_key unmasked]. rewrite xor_mask_twice. reflexivity.
Qed.

(* ===================================================================== *)
(** ** The receive loop                                                    *)
(* ===================================================================== *)

Section ReceiveLoop.

Variable e : env.

Lemma parse_frames_need_more (fuel : nat) (st : conn) (buffer : bytes) :
  decode_step buffer = NeedMoreData ->
  parse_frames (S fuel) e st buffer = (InnerDone, st, buffer).
Proof. intros H. cbn [parse_frames]. rewrite H. reflexivity. Qed.

(** With fuel above the buffer's length, the iterations that fall through
    never use it up. *)
Lemma parse_frames_reaches (st st' : conn) (buffer buffer' : bytes) :
  inner_reaches e st buffer st' buffer' ->
  forall fuel, (List.length buffer < fuel)%nat ->
  exists fuel', (List.length buffer' < fuel')%nat /\
                parse_frames fuel e st buffer = parse_frames fuel' e st' buffer'.
Proof.
  induction 1 as [st buffer | st buffer f rest st1 st' buffer' Hd Hh _ IH]; intros fuel Hf.
  - exists fuel. split; [assumption | reflexivity].
  - destruct fuel as [| fuel]; [lia |].
    apply decode_step_shrinks in Hd as Hs.
    destruct (IH fuel ltac:(lia)) as (fuel' & Hf' & Heq).
    exists fuel'. split; [assumption |].
    cbn [parse_frames]. rewrite Hd, Hh. exact Heq.
Qed.

(** The inner loop terminates: [process_buffer] never runs out of fuel. *)
Lemma parse_frames_total (fuel : nat) (st : conn) (buffer : bytes) :
  (List.length buffer < fuel)%nat ->
  fst (fst (parse_frames fuel e st buffer)) <> InnerFuel.
Proof.
  revert st buffer. induction fuel as [| fuel IH]; intros st buffer Hf; [lia |].
  cbn [parse_frames].
  destruct (decode_step buffer) as [| f rest] eqn:Hd; [discriminate |].
  apply decode_step_shrinks in Hd.
  destruct (handle_frame e st f) as [[| | x] st1]; cbn; try discriminate.
  apply IH. lia.
Qed.

(** X21 (the inner loop terminates).  On every buffer and in every state
    the inner loop comes to an end: each frame it handles takes at least
    two bytes off the buffer, so the fuel of the model, one more than the
    buffer's length, is never used up. *)
Lemma process_buffer_total (st : conn) (buffer : bytes) :
  fst (fst (process_buffer e st buffer)) <> InnerFuel.
Proof. apply parse_frames_total. lia. Qed.

Lemma set_connected_twice (b c : bool) (st : conn) :
  set_connected b (set_connected c st) = set_connected b st.
Proof. reflexivity. Qed.

(** Once the flag is down the loop leaves without another [recv]. *)
Lemma receive_loop_not_connected (events : list recv_event) (st : conn)
      (buffer : bytes) :
  connected st = false ->
  receive_loop e events st buffer = (Exited, set_connected false st, buffer).
Proof.
  intros H. destruct events as [| ev evs]; cbn [receive_loop];
    rewrite H, andb_false_r; reflexivity.
Qed.

(** One non-empty chunk whose processing does not raise: the loop goes on
    with the state and the buffer the inner loop left. *)
Lemma receive_loop_chunk (evs : list recv_event) (st st' : conn)
      (buffer chunk buffer' : bytes) :
  connected st = true -> stop_event st = false -> chunk <> [] ->
  process_buffer e st (buffer ++ chunk) = (InnerDone, st', buffer') ->
  receive_loop e (Chunk chunk :: evs) st buffer = receive_loop e evs st' buffer'.
Proof.
  intros Hc Hs Hne Hp. destruct chunk as [| c cs]; [contradiction |].
  cbn [receive_loop]. rewrite Hc, Hs. cbn [negb andb]. rewrite Hp. reflexivity.
Qed.

End ReceiveLoop.

(* ===================================================================== *)
(** ** The handshake                                                       *)
(* ===================================================================== *)

Lemma read_response_eq (events : list recv_event) (response : bytes) :
  read_response events response =
  if bytes_in (CRLF ++ CRLF) response then (Done response, events)
  else
    match events with
    | [] => (Wait, [])
    | Chunk [] :: evs =>
      (Fail (WebSocketError (s_lit "Connection closed during handshake")), evs)
    | Chunk c :: evs => read_response evs (response ++ c)
    | RecvRaises x :: evs => (Fail x, evs)
    end.
Proof. destruct events; reflexivity. Qed.

(** X22 (a response without [101] is refused).  A response without the
    text [101] anywhere is refused: [connect] raises
    [WebSocketError] with the first 200 characters of the response, and the
    connection stays as it was (the request apart). *)
Lemma connect_rejects_without_101 (e : env) (path host key : pystr)
      (events evs : list recv_event) (st : conn)
      (request response : bytes) (response_str : pystr) :
  encode_utf8 (handshake_request path host key) = Ok request ->
  sendall_raises e (List.length (sent st)) = None ->
  read_response events [] = (Done response, evs) ->
  utf8_decode response = Some response_str ->
  str_in (s_lit "101") response_str = false ->
  connect e path host key events st
  = (Fail (WebSocketError
             (s_lit "WebSocket handshake failed: " ++ firstn 200 response_str)),
     log_sent request st, evs).
Proof.
  intros Hq Hs Hr Hd Hin. unfold connect, sendall, decode_utf8.
  rewrite Hq, Hs, Hr, Hd, Hin. reflexivity.
Qed.

(** The design document's example: [HTTP/1.1 404 Not Found] is refused and
    the connection stays disconnected. *)
Example connect_404_rejected :
  exists msg st,
    connect quiet_env (s_lit "/ws/games/g1?playerId=p1") (s_lit "localhost")
            (s_lit "c2FtcGxlIG5vbmNlIDEyMw==") [Chunk response_404] init
    = (Fail (WebSocketError msg), st, []) /\
    connected st = false /\
    msg = s_lit "WebSocket handshake failed: HTTP/1.1 404 Not Found" ++ s_CRLF ++ s_CRLF.
Proof. do 2 eexists. vm_compute. repeat split. Qed.

(* ===================================================================== *)
(** ** Properties of the frame codec                                       *)
(* ===================================================================== *)

(** C1 (round trip through the frame codec).  For every payload [data]
    (the UTF-8 bytes of a string; a Python [bytes] is shorter than 2^64)
    and every masking key, [_send_frame(data, opcode=0x1)] produces a frame
    [f] that the decoder turns back into a text frame, mask bit set, whose
    unmasked payload is [data] exactly; the decode consumes [len f] bytes,
    the whole frame, and leaves an empty buffer.  The last part gives the
    size of the frame in the length classes: 6 bytes of header and key up to
    125 bytes of payload (the empty payload included), 8 up to 65535, 14
    above. *)
Theorem frame_roundtrip (data : bytes) (mask : mask_key) :
  len data < 2 ^ 64 ->
  exists f,
    frame_bytes data 1 mask = Ok f /\
    decode_step f = Decoded (Frame Byte.x81 1 true data (len f)) [] /\
    len f = len data
            + (if len data <=? 125 then 6 else if len data <=? 65535 then 8 else 14).
Proof.
  intros Hlen.
  pose proof (frame_bytes_wire data 1 mask ltac:(lia) Hlen) as Hf.
  eexists. split; [exact Hf |]. split.
  - pose proof (decode_frame_bytes data [] 1 mask _ Hf) as Hd.
    rewrite app_nil_r in Hd. exact Hd.
  - unfold wire_frame. rewrite len_cons, !len_app, length_field_len, xor_mask_len.
    change (len (key_field (Some mask))) with 4.
    destruct (len data <=? 125); [lia |]. destruct (len data <=? 65535); lia.
Qed.

Lemma frame_roundtrip_witness :
  len (b_lit "hi") < 2 ^ 64 /\
  exists f,
    frame_bytes (b_lit "hi") 1 key_1234 = Ok f /\
    decode_step f = Decoded (Frame Byte.x81 1 true (b_lit "hi") (len f)) [] /\
    len f = len (b_lit "hi")
            + (if len (b_lit "hi") <=? 125 then 6
               else if len (b_lit "hi") <=? 65535 then 8 else 14).
Proof.
  assert (H : len (b_lit "hi") < 2 ^ 64) by (vm_compute; reflexivity).
  exact (conj H (frame_roundtrip (b_lit "hi") key_1234 H)).
Defined.

(** The length classes on concrete payloads: 0, 125 and 126 bytes. *)
Example roundtrip_empty :
  bind (frame_bytes [] 1 key_1234) (fun f => Ok (decode_step f, len f))
  = Ok (Decoded (Frame Byte.x81 1 true [] 6) [], 6).
Proof. vm_compute. reflexivity. Qed.

Example roundtrip_125 :
  let data := repeat Byte.x61 125 in
  bind (frame_bytes data 1 key_1234) (fun f => Ok (decode_step f, len f))
  = Ok (Decoded (Frame Byte.x81 1 true data 131) [], 131).
Proof. vm_compute. reflexivity. Qed.

Example roundtrip_126 :
  let data := repeat Byte.x61 126 in
  bind (frame_bytes data 1 key_1234) (fun f => Ok (decode_step f, len f))
  = Ok (Decoded (Frame Byte.x81 1 true data 134) [], 134).
Proof. vm_compute. reflexivity. Qed.

(** The 64-bit form of the length, read back by the decoder's header
    parser: 65536 is [00 00 00 00 00 01 00 00] behind the byte [ff]. *)
Example header_65536 :
  length_field true 65536
  = [Byte.xff; Byte.x00; Byte.x00; Byte.x00; Byte.x00; Byte.x00; Byte.x01; Byte.x00;
     Byte.x00] /\
  parse_header (Byte.x81 :: length_field true 65536 ++ key_bytes key_1234)
  = Some (true, 65536, 14).
Proof. vm_compute. split; reflexivity. Qed.

(** [send] puts the UTF-8 bytes of the message through the same encoder. *)
Lemma send_roundtrip (e : env) (st : conn) (message : pystr) (data : bytes) :
  connected st = true ->
  utf8_encode message = Some data ->
  len data < 2 ^ 64 ->
  exists f st',
    snd (send e st message) = st' /\ sent st' = sent st ++ [f] /\
    decode_step f = Decoded (Frame Byte.x81 1 true data (len f)) [].
Proof.
  intros Hc He Hlen. unfold send, encode_utf8, send_frame.
  rewrite Hc, He. cbn [negb].
  pose proof (frame_bytes_wire data 1 (urandom4 e (urandom_calls st)) ltac:(lia) Hlen) as Hf.
  pose proof (decode_frame_bytes data [] 1 _ _ Hf) as Hd. rewrite app_nil_r in Hd.
  rewrite Hf. eexists. eexists. split; [reflexivity |].
  unfold sendall. destruct (sendall_raises e _); cbn; auto.
Qed.

(** X2 (a sent message arrives as itself).  End to end: the frame [send]
    writes for [message], read by a receive loop, reaches the callback as
    [message] itself. *)
Lemma sent_message_is_delivered (e e' : env) (st st' : conn) (message : pystr)
      (data : bytes) (callback : pystr -> option exn) (f : bytes) :
  connected st = true ->
  utf8_encode message = Some data -> len data < 2 ^ 64 ->
  sent (snd (send e st message)) = sent st ++ [f] ->
  on_message e' = Some callback ->
  exists fr, decode_step f = Decoded fr [] /\
             delivered (snd (handle_frame e' st' fr)) = delivered st' ++ [message].
Proof.
  intros Hc He Hlen Hs Hcb.
  destruct (send_roundtrip e st message data Hc He Hlen) as (f0 & st0 & <- & Hs0 & Hd).
  rewrite Hs0 in Hs. apply app_inv_head in Hs. injection Hs as ->.
  eexists. split; [exact Hd |].
  unfold handle_frame, decode_utf8. cbn [opcode payload Z.eqb Pos.eqb].
  rewrite (utf8_roundtrip message data He), Hcb.
  destruct (callback message); reflexivity.
Qed.

(** Any buffer that is exactly one frame: its strict prefixes give
    [NeedMoreData]; followed by a strict prefix of another whole frame it
    decodes to the same frame and leaves that prefix, which in turn gives
    [NeedMoreData]. *)
Lemma whole_frame_prefixes (f : bytes) (fr : frame) :
  decode_step f = Decoded fr [] ->
  (forall n : nat, (n < List.length f)%nat -> decode_step (firstn n f) = NeedMoreData) /\
  (forall (next : bytes) (fr' : frame) (n : nat),
     decode_step next = Decoded fr' [] -> (n < List.length next)%nat ->
     decode_step (f ++ firstn n next) = Decoded fr (firstn n next) /\
     decode_step (firstn n next) = NeedMoreData).
Proof.
  assert (Hshort : forall (b : bytes) (g : frame) (n : nat),
             decode_step b = Decoded g [] -> (n < List.length b)%nat ->
             decode_step (firstn n b) = NeedMoreData).
  { intros b g n Hb Hn. apply (decode_step_short b [] g n Hb).
    apply decode_step_sizes in Hb. destruct Hb as (_ & _ & Hr).
    unfold len in *. simpl in Hr. lia. }
  intros Hd. split.
  - intros n Hn. apply (Hshort f fr n Hd Hn).
  - intros next fr' n Hnext Hn. split.
    + apply (decode_step_app f (firstn n next) [] fr Hd).
    + apply (Hshort next fr' n Hnext Hn).
Qed.

(** C2 (partial-buffer safety of the decoder).  Let [f] be a frame that
    [_send_frame] produced.  (1) On every strict prefix of [f] the decode
    step gives [NeedMoreData], and the inner loop leaves the connection and
    the buffer as they were.  (2) On [f] itself the decode step gives the
    frame with the payload that was encoded, consuming all of [f].  (3) On
    [f] followed by a strict prefix of a next frame the decode step gives
    that one frame and leaves the prefix, byte for byte, in the buffer,
    where the following decode step gives [NeedMoreData]. *)
Theorem decode_partial_buffer_safe (e : env) (st : conn)
        (data : bytes) (opcode : Z) (mask : mask_key) (f : bytes) :
  frame_bytes data opcode mask = Ok f ->
  (forall n : nat, (n < List.length f)%nat ->
     decode_step (firstn n f) = NeedMoreData /\
     process_buffer e st (firstn n f) = (InnerDone, st, firstn n f)) /\
  (exists fr, decode_step f = Decoded fr [] /\
              payload fr = data /\ total_len fr = len f) /\
  (forall (next : bytes) (fr' : frame) (n : nat),
     decode_step next = Decoded fr' [] -> (n < List.length next)%nat ->
     exists fr, decode_step (f ++ firstn n next) = Decoded fr (firstn n next) /\
                payload fr = data /\ total_len fr = len f /\
                decode_step (firstn n next) = NeedMoreData).
Proof.
  intros Hf.
  pose proof (decode_frame_bytes data [] opcode mask f Hf) as Hd.
  rewrite app_nil_r in Hd.
  destruct (whole_frame_prefixes f _ Hd) as [Hprefix Hnext].
  split; [| split].
  - intros n Hn. pose proof (Hprefix n Hn) as Hs. split; [exact Hs |].
    unfold process_buffer. apply parse_frames_need_more. exact Hs.
  - eexists. split; [exact Hd |]. split; reflexivity.
  - intros next fr' n Hnx Hn. destruct (Hnext next fr' n Hnx Hn) as [H1 H2].
    eexists. split; [exact H1 |]. repeat split. exact H2.
Qed.

Lemma decode_partial_buffer_safe_witness :
  exists f,
    frame_bytes (b_lit "hi") 1 key_1234 = Ok f /\
    (forall n : nat, (n < List.length f)%nat ->
       decode_step (firstn n f) = NeedMoreData /\
       process_buffer quiet_env open_conn (firstn n f) = (InnerDone, open_conn, firstn n f)) /\
    (exists fr, decode_step f = Decoded fr [] /\
                payload fr = b_lit "hi" /\ total_len fr = len f) /\
    (forall (next : bytes) (fr' : frame) (n : nat),
       decode_step next = Decoded fr' [] -> (n < List.length next)%nat ->
       exists fr, decode_step (f ++ firstn n next) = Decoded fr (firstn n next) /\
                  payload fr = b_lit "hi" /\ total_len fr = len f /\
                  decode_step (firstn n next) = NeedMoreData).
Proof.
  eexists. split; [vm_compute; reflexivity |].
  apply (decode_partial_buffer_safe quiet_env open_conn (b_lit "hi") 1 key_1234).
  vm_compute. reflexivity.
Defined.

(** C10 (the decoder honours the mask bit).  For every first byte, every
    body shorter than 2^64 bytes and every buffer tail: a frame whose second
    byte has the mask bit set and which carries a 4-byte key decodes to the
    body XORed byte by byte with the key, byte [i] against key byte [i % 4];
    a frame with the mask bit clear decodes to the body verbatim.  Either
    way the frame's bytes, and only they, leave the buffer, and a text frame
    so decoded is what the callback receives. *)
Theorem decoder_handles_mask_bit (b0 : byte) (body rest : bytes) :
  len body < 2 ^ 64 ->
  (forall k : mask_key,
     decode_step (wire_frame b0 (Some k) body ++ rest)
     = Decoded (Frame b0 (Z.land (byte.unsigned b0) 15) true
                      (xor_mask (key_bytes k) body)
                      (len (wire_frame b0 (Some k) body))) rest /\
     List.length (key_bytes k) = 4%nat /\
     forall i : nat, (i < List.length body)%nat ->
       nth i (xor_mask (key_bytes k) body) Byte.x00
       = byte.xor (nth i body Byte.x00) (nth (i mod 4)%nat (key_bytes k) Byte.x00)) /\
  decode_step (wire_frame b0 None body ++ rest)
  = Decoded (Frame b0 (Z.land (byte.unsigned b0) 15) false body
                   (len (wire_frame b0 None body))) rest /\
  (forall (key : option mask_key) (e : env) (st : conn) (callback : pystr -> option exn)
          (message : pystr) (fuel : nat),
     Z.land (byte.unsigned b0) 15 = 1 ->
     on_message e = Some callback -> callback message = None ->
     utf8_decode (unmasked key body) = Some message ->
     parse_frames (S fuel) e st (wire_frame b0 key body ++ rest)
     = parse_frames fuel e (log_delivered message st) rest).
Proof.
  intros Hlen. split; [| split].
  - intros k. split; [| split].
    + apply (decode_step_wire b0 (Some k) body rest Hlen).
    + reflexivity.
    + intros i Hi. apply xor_mask_nth. exact Hi.
  - apply (decode_step_wire b0 None body rest Hlen).
  - intros key e st callback message fuel Hop Hcb Hret Hutf.
    cbn [parse_frames]. rewrite (decode_step_wire b0 key body rest Hlen).
    unfold handle_frame, decode_utf8. cbn [opcode payload].
    rewrite Hop, Hutf, Hcb, Hret. reflexivity.
Qed.

Lemma decoder_handles_mask_bit_witness :
  len (b_lit "hi") < 2 ^ 64 /\
  decode_step (wire_frame Byte.x81 None (b_lit "hi") ++ close_unmasked)
  = Decoded (Frame Byte.x81 (Z.land (byte.unsigned Byte.x81) 15) false (b_lit "hi")
                   (len (wire_frame Byte.x81 None (b_lit "hi")))) close_unmasked.
Proof.
  assert (H : len (b_lit "hi") < 2 ^ 64) by (vm_compute; reflexivity).
  exact (conj H (proj1 (proj2 (decoder_handles_mask_bit Byte.x81 (b_lit "hi")
                                                        close_unmasked H)))).
Defined.

(** A masked frame from a peer, on concrete bytes: key [01 02 03 04], body
    [69 6b] on the wire, payload [hi]. *)
Example decode_masked_hi :
  decode_step [Byte.x81; Byte.x82; Byte.x01; Byte.x02; Byte.x03; Byte.x04;
               Byte.x69; Byte.x6b]
  = Decoded (Frame Byte.x81 1 true (b_lit "hi") 8) [].
Proof. vm_compute. reflexivity. Qed.

(* ===================================================================== *)
(** ** Properties of the connection                                        *)
(* ===================================================================== *)

(** C3 (close frame).  The connection is open and the loop receives a
    chunk.  If, after any number of frames of this buffer were handled, the
    decode step gives a frame with opcode 0x8, then the loop exits: the
    final state is the state at that moment with [connected] false, so no
    callback ran and nothing was written after the close frame; the bytes
    behind the close frame ([rest], complete frames or not) stay in the
    buffer unread, and no later event of the socket is looked at. *)
Theorem close_frame_stops_loop (e : env) (st st1 : conn)
        (buffer chunk buffer1 rest : bytes) (evs : list recv_event) (f : frame) :
  connected st = true -> stop_event st = false -> chunk <> [] ->
  inner_reaches e st (buffer ++ chunk) st1 buffer1 ->
  decode_step buffer1 = Decoded f rest -> opcode f = 8 ->
  receive_loop e (Chunk chunk :: evs) st buffer
  = (Exited, set_connected false st1, rest) /\
  connected (set_connected false st1) = false /\
  delivered (set_connected false st1) = delivered st1 /\
  sent (set_connected false st1) = sent st1.
Proof.
  intros Hc Hs Hne Hreach Hd Hop. split; [| repeat split].
  assert (Hp : process_buffer e st (buffer ++ chunk)
               = (InnerDone, set_connected false st1, rest)).
  { unfold process_buffer.
    destruct (parse_frames_reaches e _ _ _ _ Hreach (S (List.length (buffer ++ chunk)))
                                   ltac:(lia)) as (fuel' & Hf' & ->).
    destruct fuel' as [| fuel']; [lia |].
    cbn [parse_frames]. rewrite Hd. unfold handle_frame. rewrite Hop. reflexivity. }
  rewrite (receive_loop_chunk e evs st _ buffer chunk rest Hc Hs Hne Hp).
  rewrite receive_loop_not_connected by reflexivity.
  rewrite set_connected_twice. reflexivity.
Qed.

(** A text frame, a close frame and another text frame in one read: the
    first message is delivered, the second never. *)
Lemma close_frame_stops_loop_witness :
  receive_loop quiet_env
               [Chunk (text_hi_unmasked ++ close_unmasked ++ text_hi_unmasked);
                Chunk text_hi_unmasked]
               open_conn []
  = (Exited, set_connected false (log_delivered (s_lit "hi") open_conn), text_hi_unmasked).
Proof.
  refine (proj1 (close_frame_stops_loop quiet_env open_conn
                   (log_delivered (s_lit "hi") open_conn)
                   [] (text_hi_unmasked ++ close_unmasked ++ text_hi_unmasked)
                   (close_unmasked ++ text_hi_unmasked) text_hi_unmasked
                   [Chunk text_hi_unmasked]
                   (Frame Byte.x88 8 false [] 2) _ _ _ _ _ _)).
  - reflexivity.
  - reflexivity.
  - discriminate.
  - eapply reaches_next; [vm_compute; reflexivity | vm_compute; reflexivity |].
    apply reaches_here.
  - vm_compute. reflexivity.
  - reflexivity.
Defined.

(** C4 (ping).  When the decode step gives a frame with opcode 0x9 and
    payload [p], the loop writes one frame: the state it goes on with has
    exactly one more entry in [sent], and that entry decodes to a pong
    (first byte [8a], opcode 0xA), masked, with payload [p], consuming the
    whole entry.  [delivered] is unchanged: the callback is not called for
    this frame.  The loop then continues with the rest of the buffer, or
    leaves the inner loop with the exception when [sendall] raises. *)
Theorem ping_answered_with_pong (e : env) (st : conn) (buffer rest : bytes)
        (f : frame) (fuel : nat) :
  decode_step buffer = Decoded f rest -> opcode f = 9 ->
  exists pong,
    frame_bytes (payload f) 10 (urandom4 e (urandom_calls st)) = Ok pong /\
    decode_step pong = Decoded (Frame Byte.x8a 10 true (payload f) (len pong)) [] /\
    let st' := log_sent pong (tick_urandom st) in
    sent st' = sent st ++ [pong] /\
    delivered st' = delivered st /\
    handle_frame e st f
    = (match sendall_raises e (List.length (sent st)) with
       | None => Next
       | Some x => Raised x
       end, st') /\
    parse_frames (S fuel) e st buffer
    = match sendall_raises e (List.length (sent st)) with
      | None => parse_frames fuel e st' rest
      | Some x => (InnerRaised x, st', rest)
      end.
Proof.
  intros Hd Hop.
  pose proof (decode_step_sizes _ _ _ Hd) as (Hlen & _).
  pose proof (frame_bytes_wire (payload f) 10 (urandom4 e (urandom_calls st))
                               ltac:(lia) ltac:(lia)) as Hf.
  eexists. split; [exact Hf |]. split.
  { pose proof (decode_frame_bytes (payload f) [] 10 _ _ Hf) as Hp.
    rewrite app_nil_r in Hp. exact Hp. }
  cbn zeta. split; [reflexivity |]. split; [reflexivity |].
  assert (Hh : handle_frame e st f
               = (match sendall_raises e (List.length (sent st)) with
                  | None => Next
                  | Some x => Raised x
                  end,
                  log_sent (wire_frame (byte.of_Z (Z.lor 128 10))
                                       (Some (urandom4 e (urandom_calls st)))
                                       (xor_mask (key_bytes (urandom4 e (urandom_calls st)))
                                                 (payload f)))
                           (tick_urandom st))).
  { unfold handle_frame, send_frame, sendall. rewrite Hop, Hf. cbn [Z.eqb Pos.eqb].
    cbn [sent tick_urandom]. destruct (sendall_raises e _); reflexivity. }
  split; [exact Hh |].
  cbn [parse_frames]. rewrite Hd, Hh.
  destruct (sendall_raises e _); reflexivity.
Qed.

(** The design document's example: a ping with payload [abc]. *)
Lemma ping_answered_with_pong_witness :
  exists pong,
    frame_bytes (b_lit "abc") 10 key_1234 = Ok pong /\
    decode_step pong = Decoded (Frame Byte.x8a 10 true (b_lit "abc") (len pong)) [] /\
    receive_loop quiet_env [Chunk ping_abc_unmasked] open_conn []
    = (Running, log_sent pong (tick_urandom open_conn), []).
Proof.
  destruct (ping_answered_with_pong quiet_env open_conn ping_abc_unmasked []
              (Frame Byte.x89 9 false (b_lit "abc") 5) 5
              ltac:(vm_compute; reflexivity) ltac:(reflexivity))
    as (pong & Hf & Hd & _ & _ & _ & Hp).
  exists pong. split; [exact Hf |]. split; [exact Hd |].
  rewrite (receive_loop_chunk quiet_env [] open_conn (log_sent pong (tick_urandom open_conn))
             [] ping_abc_unmasked []); [reflexivity | reflexivity | reflexivity | discriminate |].
  unfold process_buffer. cbn [app List.length ping_abc_unmasked] in *.
  rewrite Hp. reflexivity.
Defined.

(** C7, as stated, fails: a text frame whose FIN bit is clear (first byte
    [01]) is handed to the callback like any other text frame. *)
Lemma text_frame_without_fin_is_delivered :
  exists f,
    decode_step text_hi_no_fin = Decoded f [] /\
    opcode f = 1 /\ fin f = false /\
    receive_loop quiet_env [Chunk text_hi_no_fin] open_conn []
    = (Running, log_delivered (s_lit "hi") open_conn, []).
Proof.
  exists (Frame Byte.x01 1 false (b_lit "hi") 4). vm_compute. repeat split.
Qed.

(** C7, amended (text frames are delivered whatever their FIN bit).  When
    the decode step gives a frame with opcode 0x1 whose payload is valid
    UTF-8 and a callback is registered, the loop calls the callback with the
    decoded payload at once, and goes on with the rest of the buffer (or
    leaves the inner loop with the exception when the callback raises).  The
    first byte enters through its low four bits only: the FIN bit is not
    read and nothing is kept back for reassembly. *)
Theorem text_frame_delivered_whatever_fin (e : env) (st : conn) (buffer rest : bytes)
        (f : frame) (callback : pystr -> option exn) (message : pystr) (fuel : nat) :
  decode_step buffer = Decoded f rest -> opcode f = 1 ->
  utf8_decode (payload f) = Some message ->
  on_message e = Some callback ->
  delivered (snd (handle_frame e st f)) = delivered st ++ [message] /\
  parse_frames (S fuel) e st buffer
  = match callback message with
    | None => parse_frames fuel e (log_delivered message st) rest
    | Some x => (InnerRaised x, log_delivered message st, rest)
    end.
Proof.
  intros Hd Hop Hutf Hcb.
  assert (Hh : handle_frame e st f
               = (match callback message with
                  | None => Next
                  | Some x => Raised x
                  end,
                  log_delivered message st)).
  { unfold handle_frame, decode_utf8. rewrite Hop, Hutf, Hcb. cbn [Z.eqb Pos.eqb].
    destruct (callback message); reflexivity. }
  split.
  - rewrite Hh. reflexivity.
  - cbn [parse_frames]. rewrite Hd, Hh. destruct (callback message); reflexivity.
Qed.

Lemma text_frame_delivered_whatever_fin_witness :
  fin (Frame Byte.x01 1 false (b_lit "hi") 4) = false /\
  delivered (snd (handle_frame quiet_env open_conn (Frame Byte.x01 1 false (b_lit "hi") 4)))
  = delivered open_conn ++ [s_lit "hi"].
Proof.
  split; [reflexivity |].
  exact (proj1 (text_frame_delivered_whatever_fin quiet_env open_conn text_hi_no_fin []
                  (Frame Byte.x01 1 false (b_lit "hi") 4) (fun _ => None) (s_lit "hi") 0
                  ltac:(vm_compute; reflexivity) ltac:(reflexivity)
                  ltac:(vm_compute; reflexivity) ltac:(reflexivity))).
Defined.

(** C8, as stated, fails: a frame with the reserved opcode 0x3 is skipped;
    the connection stays open and the text frame behind it is delivered. *)
Lemma unhandled_opcode_does_not_close :
  exists f rest st,
    decode_step (reserved3_unmasked ++ text_hi_unmasked) = Decoded f rest /\
    opcode f = 3 /\
    receive_loop quiet_env [Chunk (reserved3_unmasked ++ text_hi_unmasked)] open_conn []
    = (Running, st, []) /\
    connected st = true /\ delivered st = [s_lit "hi"].
Proof.
  exists (Frame Byte.x83 3 false [] 2), text_hi_unmasked,
         (log_delivered (s_lit "hi") open_conn).
  vm_compute. repeat split.
Qed.

(** C8, amended (frames with other opcodes are skipped).  When the decode
    step gives a frame whose opcode is none of 0x1, 0x8 and 0x9, the loop
    drops it: no callback, no write, the connection state is unchanged, and
    the loop goes on with the bytes behind the frame.  The decoder itself
    refuses no opcode. *)
Theorem unhandled_opcode_skipped (e : env) (st : conn) (buffer rest : bytes)
        (f : frame) (fuel : nat) :
  decode_step buffer = Decoded f rest ->
  opcode f <> 1 -> opcode f <> 8 -> opcode f <> 9 ->
  handle_frame e st f = (Next, st) /\
  parse_frames (S fuel) e st buffer = parse_frames fuel e st rest.
Proof.
  intros Hd H1 H8 H9.
  assert (Hh : handle_frame e st f = (Next, st)).
  { unfold handle_frame.
    destruct (opcode f =? 1) eqn:E1; [apply Z.eqb_eq in E1; contradiction |].
    destruct (opcode f =? 8) eqn:E8; [apply Z.eqb_eq in E8; contradiction |].
    destruct (opcode f =? 9) eqn:E9; [apply Z.eqb_eq in E9; contradiction |].
    reflexivity. }
  split; [exact Hh |].
  cbn [parse_frames]. rewrite Hd, Hh. reflexivity.
Qed.

Lemma unhandled_opcode_skipped_witness :
  handle_frame quiet_env open_conn (Frame Byte.x83 3 false [] 2) = (Next, open_conn) /\
  parse_frames 7 quiet_env open_conn (reserved3_unmasked ++ text_hi_unmasked)
  = parse_frames 6 quiet_env open_conn text_hi_unmasked.
Proof.
  apply (unhandled_opcode_skipped quiet_env open_conn
           (reserved3_unmasked ++ text_hi_unmasked) text_hi_unmasked
           (Frame Byte.x83 3 false [] 2) 6).
  - vm_compute. reflexivity.
  - discriminate.
  - discriminate.
  - discriminate.
Defined.

(** A pong (opcode 0xA) is one of the skipped frames. *)
Example pong_ignored :
  receive_loop quiet_env [Chunk [Byte.x8a; Byte.x00]] open_conn [] = (Running, open_conn, []).
Proof. vm_compute. reflexivity. Qed.

(** A text frame that is not valid UTF-8 ends the loop through the
    exception handler. *)
Example bad_utf8_closes :
  receive_loop quiet_env [Chunk [Byte.x81; Byte.x01; Byte.xff]] open_conn []
  = (Exited, set_connected false (log_printed UnicodeDecodeError open_conn), []).
Proof. vm_compute. reflexivity. Qed.

(** C5: where the code departs from the claim.  The response has the status
    line [HTTP/1.1 404 Not Found] and a header [Content-Length: 101];
    [connect] looks for the text [101] in the whole response, finds it,
    returns normally and leaves the connection marked connected. *)
Theorem connect_accepts_404_mentioning_101 :
  exists st,
    connect quiet_env (s_lit "/ws/games/g1?playerId=p1") (s_lit "localhost")
            (s_lit "c2FtcGxlIG5vbmNlIDEyMw==") [Chunk response_404_with_101] init
    = (Done tt, st, []) /\
    connected st = true /\
    starts_with Byte.eqb (b_lit "HTTP/1.1 404 Not Found" ++ CRLF) response_404_with_101 = true.
Proof. eexists. vm_compute. repeat split. Qed.

(** C6: where the code departs from the claim.  The server's first frame
    arrives in the same read as the end of the handshake response.
    (1) If that frame starts with a byte that is not UTF-8 text, as every
    frame with the FIN bit does, [connect] raises [UnicodeDecodeError] and
    the connection is never opened.  (2) If the trailing bytes happen to be
    valid UTF-8, [connect] succeeds, the receive loop starts on an empty
    buffer and the frame is never delivered.  (3) The same frame in a read of
    its own is delivered. *)
Theorem bytes_behind_handshake_are_lost :
  let run := session quiet_env (s_lit "/ws/games/g1?playerId=p1") (s_lit "localhost")
                     (s_lit "c2FtcGxlIG5vbmNlIDEyMw==") in
  (exists st, run [Chunk (response_101 ++ text_hi_unmasked)] = (Fail UnicodeDecodeError, st, [])
              /\ connected st = false /\ delivered st = []) /\
  (exists st, run [Chunk (response_101 ++ text_hi_no_fin)] = (Done Running, st, [])
              /\ connected st = true /\ delivered st = []) /\
  (exists st, run [Chunk response_101; Chunk text_hi_no_fin] = (Done Running, st, [])
              /\ connected st = true /\ delivered st = [s_lit "hi"]).
Proof. cbv zeta. repeat split; eexists; vm_compute; repeat split. Qed.

(** Whatever one read brings behind the header terminator, a successful
    [connect] passes none of it on: with no further read the receive loop
    waits on an empty buffer and has delivered nothing. *)
Lemma session_starts_on_empty_buffer (e : env) (path host key : pystr) (chunk : bytes)
      (st : conn) (evs : list recv_event) :
  connect e path host key [Chunk chunk] init = (Done tt, st, evs) ->
  session e path host key [Chunk chunk] = (Done Running, st, []) /\ delivered st = [].
Proof.
  intros H. unfold session. rewrite H.
  unfold connect in H.
  destruct (encode_utf8 _) as [request |]; [| discriminate].
  unfold sendall in H. destruct (sendall_raises e _); [discriminate |].
  destruct (read_response [Chunk chunk] []) as [[response | x |] evs'] eqn:Hr;
    try discriminate.
  destruct (decode_utf8 response); [| discriminate].
  destruct (negb _); [discriminate |].
  injection H as <- <-.
  assert (evs' = []) as ->.
  { rewrite read_response_eq in Hr.
    change (bytes_in (CRLF ++ CRLF) []) with false in Hr. cbv iota in Hr.
    destruct chunk as [| c cs]; [discriminate |].
    rewrite read_response_eq in Hr.
    destruct (bytes_in (CRLF ++ CRLF) ([] ++ c :: cs)); congruence. }
  split; reflexivity.
Qed.

(* ===================================================================== *)
(** ** Further properties: what is sent                                    *)
(* ===================================================================== *)

Lemma frame_bytes_first_byte (data : bytes) (opcode : Z) (mask : mask_key) (f : bytes) :
  frame_bytes data opcode mask = Ok f -> 0 <= Z.lor 128 opcode < 256.
Proof.
  unfold frame_bytes. unfold append_byte at 1.
  destruct ((0 <=? Z.lor 128 opcode) && (Z.lor 128 opcode <? 256)) eqn:E; [| discriminate].
  intros _. apply andb_true_iff in E. destruct E as [E1 E2].
  apply Z.leb_le in E1. apply Z.ltb_lt in E2. lia.
Qed.

Lemma xor_fixes_iff (b k : byte) : byte.xor b k = b <-> k = Byte.x00.
Proof.
  split.
  - intros H. apply byte.unsigned_inj.
    apply (f_equal byte.unsigned) in H. rewrite unsigned_xor in H.
    change (byte.unsigned Byte.x00) with 0.
    rewrite <- (Z.lxor_0_l (byte.unsigned k)).
    rewrite <- (Z.lxor_nilpotent (byte.unsigned b)), Z.lxor_assoc, H.
    reflexivity.
  - intros ->. apply byte.unsigned_inj. rewrite unsigned_xor.
    change (byte.unsigned Byte.x00) with 0. apply Z.lxor_0_r.
Qed.

Lemma length_field_mask_bit (n : Z) :
  0 <= n ->
  Z.land (byte.unsigned (hd Byte.x00 (length_field true n))) 128 <> 0.
Proof.
  intros Hn. unfold length_field.
  assert (Hbit : forall m, 0 <= m < 128 ->
            Z.land (byte.unsigned (byte.of_Z (Z.lor 128 m))) 128 <> 0).
  { intros m Hm. destruct (second_byte_fields true m Hm) as [_ H].
    cbv zeta in H. intros E. rewrite E in H. discriminate. }
  destruct (Z.leb_spec n 125); [| destruct (Z.leb_spec n 65535)]; cbn [hd];
    apply Hbit; lia.
Qed.

(** X1 (every frame the client writes has FIN and MASK set and a masked
    payload).  For every frame [f] that [_send_frame] builds: the top bit of
    the first byte (FIN) and of the second byte (MASK) are set; the four
    bytes before the payload are the key; payload byte [i] on the wire is
    [data[i] ^ key[i % 4]], and it differs from [data[i]] exactly when that
    key byte is not zero. *)
Theorem sent_frame_is_masked (data : bytes) (opcode : Z) (mask : mask_key) (f : bytes) :
  frame_bytes data opcode mask = Ok f ->
  exists hdr : nat,
    List.length f = (hdr + List.length data)%nat /\
    Z.land (byte.unsigned (nth 0 f Byte.x00)) 128 <> 0 /\
    Z.land (byte.unsigned (nth 1 f Byte.x00)) 128 <> 0 /\
    firstn 4 (skipn (hdr - 4) f) = key_bytes mask /\
    forall i : nat, (i < List.length data)%nat ->
      nth (hdr + i) f Byte.x00
      = byte.xor (nth i data Byte.x00) (nth (i mod 4)%nat (key_bytes mask) Byte.x00) /\
      (nth (hdr + i) f Byte.x00 = nth i data Byte.x00
       <-> nth (i mod 4)%nat (key_bytes mask) Byte.x00 = Byte.x00).
Proof.
  intros Hf. pose proof (frame_bytes_first_byte _ _ _ _ Hf) as Hb0.
  apply frame_bytes_inv in Hf. destruct Hf as [Hlen ->].
  unfold wire_frame. cbn [has_key key_field].
  set (body := xor_mask (key_bytes mask) data).
  set (lf := length_field true (len body)).
  set (b0 := byte.of_Z (Z.lor 128 opcode)).
  assert (Hshape : b0 :: lf ++ key_bytes mask ++ body
                   = ((b0 :: lf) ++ key_bytes mask) ++ body).
  { cbn [app]. rewrite <- app_assoc. reflexivity. }
  assert (Hbody : List.length body = List.length data) by apply xor_from_length.
  exists (List.length ((b0 :: lf) ++ key_bytes mask)).
  rewrite Hshape. split; [| split; [| split; [| split]]].
  - rewrite length_app, Hbody. reflexivity.
  - cbn [app nth]. subst b0. rewrite byte.unsigned_of_Z. unfold byte.wrap.
    rewrite Z.mod_small by (change (2 ^ 8) with 256; lia).
    rewrite Z.land_lor_distr_l. change (Z.land 128 128) with 128.
    intros E. apply Z.lor_eq_0_iff in E. destruct E as [E _]. discriminate.
  - pose proof (length_field_mask_bit (len body) (len_nonneg body)) as Hm.
    fold lf in Hm. destruct lf as [| b1 lf']; [exfalso; apply Hm; reflexivity |].
    exact Hm.
  - rewrite length_app. change (List.length (key_bytes mask)) with 4%nat.
    replace (List.length (b0 :: lf) + 4 - 4)%nat with (List.length (b0 :: lf)) by lia.
    rewrite <- app_assoc, skipn_app, skipn_all, Nat.sub_diag. reflexivity.
  - intros i Hi. rewrite app_nth2_plus. unfold body.
    rewrite xor_mask_nth by exact Hi. split; [reflexivity |]. apply xor_fixes_iff.
Qed.

Lemma sent_frame_is_masked_witness :
  exists f hdr,
    frame_bytes (b_lit "hi") 1 key_1234 = Ok f /\
    List.length f = (hdr + List.length (b_lit "hi"))%nat /\
    Z.land (byte.unsigned (nth 0 f Byte.x00)) 128 <> 0 /\
    Z.land (byte.unsigned (nth 1 f Byte.x00)) 128 <> 0.
Proof.
  destruct (sent_frame_is_masked (b_lit "hi") 1 key_1234 _ eq_refl)
    as (hdr & H1 & H2 & H3 & _).
  eexists. exists hdr. split; [reflexivity |]. repeat split; assumption.
Defined.

Lemma sent_message_is_delivered_witness :
  exists fr,
    decode_step [Byte.x81; Byte.x82; Byte.x01; Byte.x02; Byte.x03; Byte.x04;
                 Byte.x69; Byte.x6b] = Decoded fr [] /\
    delivered (snd (handle_frame quiet_env open_conn fr))
    = delivered open_conn ++ [s_lit "hi"].
Proof.
  apply (sent_message_is_delivered quiet_env quiet_env open_conn open_conn
           (s_lit "hi") (b_lit "hi") (fun _ => None)).
  - reflexivity.
  - vm_compute. reflexivity.
  - vm_compute. reflexivity.
  - vm_compute. reflexivity.
  - reflexivity.
Defined.

(** A string with a surrogate code point has no UTF-8 encoding. *)
Lemma utf8_encode_surrogate (s : pystr) (c : Z) :
  In c s -> 55296 <= c <= 57343 -> utf8_encode s = None.
Proof.
  intros Hin Hc. induction s as [| d s IH]; [contradiction |].
  cbn [utf8_encode]. destruct Hin as [-> | Hin].
  - unfold utf8_encode_cp, between. settle_tests. reflexivity.
  - rewrite (IH Hin). destruct (utf8_encode_cp d); reflexivity.
Qed.

(** X3 ([send] refuses a lone surrogate).  On an open connection a message
    that holds a surrogate code point makes [send] raise
    [UnicodeEncodeError]; nothing is written and the connection is as
    before. *)
Theorem send_rejects_surrogate (e : env) (st : conn) (message : pystr) (c : Z) :
  connected st = true -> In c message -> 55296 <= c <= 57343 ->
  send e st message = (Raise UnicodeEncodeError, st).
Proof.
  intros Hc Hin Hs. unfold send, encode_utf8.
  rewrite Hc, (utf8_encode_surrogate message c Hin Hs). reflexivity.
Qed.

Lemma send_rejects_surrogate_witness :
  send quiet_env open_conn [104; 55357; 105] = (Raise UnicodeEncodeError, open_conn).
Proof.
  apply (send_rejects_surrogate quiet_env open_conn [104; 55357; 105] 55357).
  - reflexivity.
  - right. left. reflexivity.
  - lia.
Defined.

(* ===================================================================== *)
(** ** Further properties: closing                                         *)
(* ===================================================================== *)

Lemma send_frame_flags (e : env) (st : conn) (data : bytes) (opcode : Z) :
  connected (snd (send_frame e st data opcode)) = connected st /\
  stop_event (snd (send_frame e st data opcode)) = stop_event st /\
  delivered (snd (send_frame e st data opcode)) = delivered st /\
  printed (snd (send_frame e st data opcode)) = printed st.
Proof.
  unfold send_frame, sendall.
  destruct (frame_bytes data opcode _); [| repeat split].
  destruct (sendall_raises e _); repeat split.
Qed.

Lemma closed_flags_fixed (st : conn) :
  connected st = false -> stop_event st = true ->
  set_connected false (set_stop st) = st.
Proof. destruct st. cbn. intros -> ->. reflexivity. Qed.

Lemma close_flags (e : env) (c : client) :
  connected (ws (close e c)) = false /\ stop_event (ws (close e c)) = true /\
  has_socket (close e c) = false.
Proof.
  unfold close. destruct (has_socket c) eqn:Hs; cbn [ws has_socket].
  - destruct (send_frame_flags e (set_connected false (set_stop (ws c))) [] 8)
      as (H1 & H2 & _).
    rewrite H1, H2. repeat split.
  - repeat split.
Qed.

(** X4 (close writes one close frame).  On a client that holds a socket,
    [close] makes one [sendall] call whose argument is a masked close frame
    with an empty payload (6 bytes: first byte [88], opcode 0x8), whether
    that call raises or not; afterwards [_connected] is false, the stop event
    is set and the socket is gone.  Nothing else of the connection
    changes. *)
Theorem close_sends_one_close_frame (e : env) (c : client) :
  has_socket c = true ->
  exists f,
    frame_bytes [] 8 (urandom4 e (urandom_calls (ws c))) = Ok f /\
    decode_step f = Decoded (Frame Byte.x88 8 true [] 6) [] /\
    close e c
    = Client (log_sent f (tick_urandom (set_connected false (set_stop (ws c))))) false.
Proof.
  intros Hs.
  pose proof (frame_bytes_wire [] 8 (urandom4 e (urandom_calls (ws c)))
                               ltac:(lia) ltac:(reflexivity)) as Hf.
  eexists. split; [exact Hf |]. split.
  - pose proof (decode_frame_bytes [] [] 8 _ _ Hf) as Hd.
    rewrite app_nil_r in Hd. exact Hd.
  - unfold close, send_frame, sendall. rewrite Hs.
    cbn [urandom_calls set_connected set_stop]. rewrite Hf.
    destruct (sendall_raises e _); reflexivity.
Qed.

Lemma close_sends_one_close_frame_witness :
  close quiet_env (Client open_conn true)
  = Client (Conn false true [[Byte.x88; Byte.x80; Byte.x01; Byte.x02; Byte.x03; Byte.x04]]
                 [] [] 1) false.
Proof.
  destruct (close_sends_one_close_frame quiet_env (Client open_conn true) eq_refl)
    as (f & Hf & _ & Hc).
  rewrite Hc. vm_compute in Hf. injection Hf as <-. reflexivity.
Defined.

(** X5 (close is idempotent).  A second [close] changes nothing and writes
    nothing: the close frame goes out at most once. *)
Theorem close_twice (e : env) (c : client) : close e (close e c) = close e c.
Proof.
  destruct (close_flags e c) as (Hc & Hs & Hk).
  unfold close at 1. rewrite Hk.
  rewrite (closed_flags_fixed _ Hc Hs). destruct (close e c) as [st k].
  cbn in Hk. rewrite Hk. reflexivity.
Qed.

(** X6 (a closed connection is inert).  After [close]: [send] raises
    [WebSocketError('Not connected')] and writes nothing; and a receive loop
    that comes to its loop head leaves at once, without calling [recv],
    without touching the buffer and without delivering anything, whatever
    frames are buffered or still to arrive. *)
Theorem closed_connection_is_inert (e : env) (c : client) (message : pystr)
        (events : list recv_event) (buffer : bytes) :
  send e (ws (close e c)) message
  = (Raise (WebSocketError (s_lit "Not connected")), ws (close e c)) /\
  receive_loop e events (ws (close e c)) buffer = (Exited, ws (close e c), buffer).
Proof.
  destruct (close_flags e c) as (Hc & Hs & _). split.
  - unfold send. rewrite Hc. reflexivity.
  - rewrite receive_loop_not_connected by exact Hc.
    destruct (ws (close e c)). cbn in Hc. rewrite Hc. reflexivity.
Qed.

(* ===================================================================== *)
(** ** Further properties: the receive loop                                *)
(* ===================================================================== *)

Section LoopInvariants.

Variable e : env.

(** Handling a frame never touches the stop event; it lowers [connected]
    only through the close branch, and never raises it. *)
Lemma handle_frame_flags (st st' : conn) (f : frame) (fl : flow) :
  handle_frame e st f = (fl, st') ->
  stop_event st' = stop_event st /\
  (fl <> Break -> connected st' = connected st) /\
  (fl = Break -> st' = set_connected false st).
Proof.
  unfold handle_frame.
  destruct (opcode f =? 1).
  { destruct (decode_utf8 (payload f)) as [m | x].
    - destruct (on_message e) as [cb |].
      + destruct (cb m); intros [= <- <-]; repeat split; discriminate.
      + intros [= <- <-]; repeat split; discriminate.
    - intros [= <- <-]; repeat split; discriminate. }
  destruct (opcode f =? 8).
  { intros [= <- <-]. repeat split. contradiction. }
  destruct (opcode f =? 9).
  { destruct (send_frame_flags e st (payload f) 10) as (H1 & H2 & _).
    destruct (send_frame e st (payload f) 10) as [[u | x] st2]; cbn [snd] in *;
      intros [= <- <-]; repeat split; auto; discriminate. }
  intros [= <- <-]; repeat split; discriminate.
Qed.

Lemma inner_reaches_flags (st st' : conn) (buffer buffer' : bytes) :
  inner_reaches e st buffer st' buffer' ->
  connected st' = connected st /\ stop_event st' = stop_event st.
Proof.
  induction 1 as [| st buffer f rest st1 st' buffer' Hd Hh _ [IH1 IH2]]; [split; reflexivity |].
  apply handle_frame_flags in Hh. destruct Hh as (Hs & Hc & _).
  rewrite IH1, IH2, Hs, Hc by discriminate. split; reflexivity.
Qed.

Lemma inner_reaches_app (st st' : conn) (buffer buffer' more : bytes) :
  inner_reaches e st buffer st' buffer' ->
  inner_reaches e st (buffer ++ more) st' (buffer' ++ more).
Proof.
  induction 1 as [| st buffer f rest st1 st' buffer' Hd Hh _ IH]; [apply reaches_here |].
  eapply reaches_next; [apply decode_step_app; exact Hd | exact Hh | exact IH].
Qed.

(** A decoded frame is cut off the front of the buffer. *)
Lemma decode_step_suffix (buffer rest : bytes) (f : frame) :
  decode_step buffer = Decoded f rest -> exists consumed, buffer = consumed ++ rest.
Proof.
  intros H. apply decode_step_inv in H.
  destruct H as (h & p & _ & _ & _ & _ & _ & _ & ->).
  exists (firstn (Z.to_nat (h + p)) buffer). unfold slice_from.
  symmetry. apply firstn_skipn.
Qed.

Lemma parse_frames_fuel (fuel1 fuel2 : nat) (st : conn) (buffer : bytes) :
  (List.length buffer < fuel1)%nat -> (List.length buffer < fuel2)%nat ->
  parse_frames fuel1 e st buffer = parse_frames fuel2 e st buffer.
Proof.
  revert fuel2 st buffer.
  induction fuel1 as [| fuel1 IH]; intros fuel2 st buffer H1 H2; [lia |].
  destruct fuel2 as [| fuel2]; [lia |]. cbn [parse_frames].
  destruct (decode_step buffer) as [| f rest] eqn:Hd; [reflexivity |].
  apply decode_step_shrinks in Hd.
  destruct (handle_frame e st f) as [[| | x] st1]; try reflexivity.
  apply IH; lia.
Qed.

Lemma process_buffer_reaches (st st' : conn) (buffer buffer' : bytes) :
  inner_reaches e st buffer st' buffer' ->
  process_buffer e st buffer = process_buffer e st' buffer'.
Proof.
  intros H. unfold process_buffer.
  destruct (parse_frames_reaches e _ _ _ _ H (S (List.length buffer)) ltac:(lia))
    as (fuel' & Hf & ->).
  apply parse_frames_fuel; lia.
Qed.

(** How the inner loop can end normally: at a buffer without a complete
    frame, reached through iterations that fell through, or by the [break]
    of a close frame, which leaves the flag down. *)
Lemma parse_frames_done (fuel : nat) (st st' : conn) (buffer buffer' : bytes) :
  (List.length buffer < fuel)%nat ->
  parse_frames fuel e st buffer = (InnerDone, st', buffer') ->
  (inner_reaches e st buffer st' buffer' /\ decode_step buffer' = NeedMoreData)
  \/ connected st' = false.
Proof.
  revert st buffer. induction fuel as [| fuel IH]; intros st buffer Hf; [lia |].
  cbn [parse_frames].
  destruct (decode_step buffer) as [| f rest] eqn:Hd.
  - intros [= <- <-]. left. split; [apply reaches_here | exact Hd].
  - apply decode_step_shrinks in Hd as Hs.
    destruct (handle_frame e st f) as [[| | x] st1] eqn:Hh.
    + intros H. destruct (IH st1 rest ltac:(lia) H) as [[Hr Hn] | Hc].
      * left. split; [| exact Hn]. eapply reaches_next; eassumption.
      * right. exact Hc.
    + intros [= <- <-]. right.
      apply handle_frame_flags in Hh. destruct Hh as (_ & _ & Hb).
      rewrite (Hb eq_refl). reflexivity.
    + discriminate.
Qed.

Lemma parse_frames_suffix (fuel : nat) (st st' : conn) (buffer buffer' : bytes) (r : inner) :
  parse_frames fuel e st buffer = (r, st', buffer') ->
  exists consumed, buffer = consumed ++ buffer'.
Proof.
  revert st buffer. induction fuel as [| fuel IH]; intros st buffer; cbn [parse_frames].
  - intros [= _ _ <-]. exists []. reflexivity.
  - destruct (decode_step buffer) as [| f rest] eqn:Hd.
    + intros [= _ _ <-]. exists []. reflexivity.
    + apply decode_step_suffix in Hd. destruct Hd as [c1 ->].
      destruct (handle_frame e st f) as [[| | x] st1].
      * intros H. apply IH in H. destruct H as [c2 ->].
        exists (c1 ++ c2). apply app_assoc.
      * intros [= _ _ <-]. exists c1. reflexivity.
      * intros [= _ _ <-]. exists c1. reflexivity.
Qed.

(** The loop body on a chunk of at least one byte. *)
Lemma receive_loop_chunk_eq (evs : list recv_event) (st : conn) (buffer chunk : bytes) :
  connected st = true -> stop_event st = false -> chunk <> [] ->
  receive_loop e (Chunk chunk :: evs) st buffer =
  match process_buffer e st (buffer ++ chunk) with
  | (InnerRaised SocketTimeout, st', buffer') => receive_loop e evs st' buffer'
  | (InnerRaised x, st', buffer') => (Exited, on_exception x st', buffer')
  | (_, st', buffer') => receive_loop e evs st' buffer'
  end.
Proof.
  intros Hc Hs Hne. destruct chunk as [| c cs]; [contradiction |].
  cbn [receive_loop]. rewrite Hc, Hs. reflexivity.
Qed.

(** X7 (no complete frame is left behind).  Whatever the buffer, the inner
    loop only removes bytes from its front; and when it ends normally with
    the connection still marked connected, what is left holds no complete
    frame: only a close frame makes the loop stop in front of buffered
    frames. *)
Theorem no_complete_frame_left_behind (st st' : conn) (buffer buffer' : bytes) (r : inner) :
  process_buffer e st buffer = (r, st', buffer') ->
  (exists consumed, buffer = consumed ++ buffer') /\
  (r = InnerDone -> connected st' = true -> decode_step buffer' = NeedMoreData).
Proof.
  intros H. split.
  - apply (parse_frames_suffix _ _ _ _ _ _ H).
  - intros -> Hc. unfold process_buffer in H.
    apply parse_frames_done in H; [| lia].
    destruct H as [[_ Hn] | Hf]; [exact Hn | congruence].
Qed.


(** X9 (reads can be merged).  If the frames completed by a first chunk are
    handled without a close frame and without an exception, it makes no
    difference whether the next bytes arrive in a second [recv] or in the
    same one: the whole run of the loop is the same. *)
Theorem chunks_can_be_merged (st st1 : conn) (buffer a b buffer1 : bytes)
        (evs : list recv_event) :
  connected st = true -> stop_event st = false -> a <> [] -> b <> [] ->
  process_buffer e st (buffer ++ a) = (InnerDone, st1, buffer1) ->
  connected st1 = true ->
  receive_loop e (Chunk a :: Chunk b :: evs) st buffer
  = receive_loop e (Chunk (a ++ b) :: evs) st buffer.
Proof.
  intros Hc Hs Ha Hb Hp Hc1.
  assert (Hr : inner_reaches e st (buffer ++ a) st1 buffer1).
  { unfold process_buffer in Hp. apply parse_frames_done in Hp; [| lia].
    destruct Hp as [[Hr _] | Hf]; [exact Hr | congruence]. }
  destruct (inner_reaches_flags _ _ _ _ Hr) as [_ Hs1].
  rewrite (receive_loop_chunk e (Chunk b :: evs) st st1 buffer a buffer1 Hc Hs Ha Hp).
  rewrite receive_loop_chunk_eq by (try assumption; congruence).
  rewrite (receive_loop_chunk_eq evs st buffer (a ++ b)); try assumption.
  - rewrite app_assoc.
    rewrite (process_buffer_reaches _ _ _ _ (inner_reaches_app _ _ _ _ b Hr)).
    reflexivity.
  - destruct a; [contradiction | discriminate].
Qed.

End LoopInvariants.

Lemma no_complete_frame_left_behind_witness :
  (exists consumed,
     text_hi_unmasked ++ [Byte.x81; Byte.x05] = consumed ++ [Byte.x81; Byte.x05]) /\
  (InnerDone = InnerDone -> connected (log_delivered (s_lit "hi") open_conn) = true ->
   decode_step [Byte.x81; Byte.x05] = NeedMoreData).
Proof.
  apply (no_complete_frame_left_behind quiet_env open_conn).
  vm_compute. reflexivity.
Defined.


Lemma chunks_can_be_merged_witness :
  receive_loop quiet_env [Chunk (text_hi_unmasked ++ [Byte.x81]);
                          Chunk [Byte.x02; Byte.x68; Byte.x69]] open_conn []
  = receive_loop quiet_env [Chunk ((text_hi_unmasked ++ [Byte.x81])
                                   ++ [Byte.x02; Byte.x68; Byte.x69])] open_conn [].
Proof.
  apply (chunks_can_be_merged quiet_env open_conn (log_delivered (s_lit "hi") open_conn)
           [] (text_hi_unmasked ++ [Byte.x81]) [Byte.x02; Byte.x68; Byte.x69] [Byte.x81] []).
  - reflexivity.
  - reflexivity.
  - discriminate.
  - discriminate.
  - vm_compute. reflexivity.
  - reflexivity.
Defined.

Lemma deliver_all_delivered (items : list pystr) (st : conn) :
  delivered (deliver_all items st) = delivered st ++ items.
Proof.
  unfold deliver_all. revert st.
  induction items as [| m items IH]; intros st; cbn [fold_left].
  - symmetry. apply app_nil_r.
  - rewrite IH. cbn [log_delivered delivered]. rewrite <- app_assoc. reflexivity.
Qed.

Lemma server_text_reaches (e : env) (callback : pystr -> option exn)
      (items : list (bytes * pystr)) (tail : bytes) (st : conn) :
  on_message e = Some callback ->
  Forall (fun it => len (fst it) < 2 ^ 64 /\ utf8_decode (fst it) = Some (snd it)
                    /\ callback (snd it) = None) items ->
  inner_reaches e st (flat_map (fun it => server_text (fst it)) items ++ tail)
                (deliver_all (List.map snd items) st) tail.
Proof.
  intros Hcb Hall. revert st.
  induction Hall as [| [d m] items (Hlen & Hutf & Hret) _ IH]; intros st.
  - apply reaches_here.
  - cbn [flat_map List.map fst snd deliver_all fold_left] in *.
    rewrite <- app_assoc. eapply reaches_next.
    + apply (decode_step_wire Byte.x81 None d _ Hlen).
    + unfold handle_frame, decode_utf8. cbn [opcode payload has_key unmasked].
      change (Z.land (byte.unsigned Byte.x81) 15 =? 1) with true. cbv iota.
      rewrite Hutf, Hcb, Hret. reflexivity.
    + apply IH.
Qed.

(** X10 (frames of one read are delivered in order).  When one read brings
    any number of server text frames back to back, each with a valid UTF-8
    payload, followed by bytes that are not yet a complete frame, and the
    callback returns each time, then the callback is called once per frame,
    in the order of the frames, with the decoded payloads; the incomplete
    rest stays in the buffer. *)
Theorem text_frames_delivered_in_order (e : env) (st : conn)
        (callback : pystr -> option exn) (items : list (bytes * pystr)) (tail : bytes) :
  on_message e = Some callback ->
  Forall (fun it => len (fst it) < 2 ^ 64 /\ utf8_decode (fst it) = Some (snd it)
                    /\ callback (snd it) = None) items ->
  decode_step tail = NeedMoreData ->
  process_buffer e st (flat_map (fun it => server_text (fst it)) items ++ tail)
  = (InnerDone, deliver_all (List.map snd items) st, tail) /\
  delivered (deliver_all (List.map snd items) st) = delivered st ++ List.map snd items /\
  sent (deliver_all (List.map snd items) st) = sent st.
Proof.
  intros Hcb Hall Htail. split; [| split].
  - rewrite (process_buffer_reaches e _ _ _ _ (server_text_reaches e callback items tail st Hcb Hall)).
    unfold process_buffer. apply parse_frames_need_more. exact Htail.
  - apply deliver_all_delivered.
  - unfold deliver_all. generalize st. clear.
    induction (List.map snd items) as [| m l IH]; intros st; [reflexivity |].
    cbn [fold_left]. rewrite IH. reflexivity.
Qed.

Lemma text_frames_delivered_in_order_witness :
  process_buffer quiet_env open_conn
    (flat_map (fun it => server_text (fst it))
              [(b_lit "move", s_lit "move"); (b_lit "error", s_lit "error")] ++ [Byte.x81])
  = (InnerDone, deliver_all [s_lit "move"; s_lit "error"] open_conn, [Byte.x81]).
Proof.
  apply (text_frames_delivered_in_order quiet_env open_conn (fun _ => None)
           [(b_lit "move", s_lit "move"); (b_lit "error", s_lit "error")] [Byte.x81]).
  - reflexivity.
  - repeat constructor; vm_compute; reflexivity.
  - reflexivity.
Defined.

(** The loop after the inner loop raised. *)
Lemma receive_loop_raised (e : env) (evs : list recv_event) (st st1 st2 : conn)
      (buffer chunk b1 b2 : bytes) (x : exn) :
  connected st = true -> stop_event st = false -> chunk <> [] ->
  inner_reaches e st (buffer ++ chunk) st1 b1 ->
  parse_frames (S (List.length b1)) e st1 b1 = (InnerRaised x, st2, b2) ->
  stop_event st2 = stop_event st1 ->
  receive_loop e (Chunk chunk :: evs) st buffer =
  match x with
  | SocketTimeout => receive_loop e evs st2 b2
  | _ => (Exited, set_connected false (log_printed x st2), b2)
  end.
Proof.
  intros Hc Hs Hne Hr Hp Hs2.
  destruct (inner_reaches_flags e _ _ _ _ Hr) as [_ Hs1].
  rewrite (receive_loop_chunk_eq e evs st buffer chunk Hc Hs Hne).
  rewrite (process_buffer_reaches e _ _ _ _ Hr). unfold process_buffer. rewrite Hp.
  unfold on_exception. rewrite Hs2, Hs1, Hs. destruct x; reflexivity.
Qed.



(** X12 (a text frame that is not UTF-8 ends the receive thread).  When a
    text frame's payload does not decode, the callback is not called, the
    [UnicodeDecodeError] is printed, [_connected] becomes false and the loop
    is left; the bytes behind the frame are never processed. *)
Theorem invalid_utf8_ends_loop (e : env) (st st1 : conn)
        (buffer chunk b1 rest : bytes) (evs : list recv_event) (f : frame) :
  connected st = true -> stop_event st = false -> chunk <> [] ->
  inner_reaches e st (buffer ++ chunk) st1 b1 ->
  decode_step b1 = Decoded f rest -> opcode f = 1 ->
  utf8_decode (payload f) = None ->
  receive_loop e (Chunk chunk :: evs) st buffer
  = (Exited, set_connected false (log_printed UnicodeDecodeError st1), rest).
Proof.
  intros Hc Hs Hne Hr Hd Hop Hutf.
  apply (receive_loop_raised e evs st st1 st1 buffer chunk b1 rest UnicodeDecodeError
           Hc Hs Hne Hr); [| reflexivity].
  cbn [parse_frames]. rewrite Hd. unfold handle_frame, decode_utf8.
  rewrite Hop, Hutf. reflexivity.
Qed.

Lemma invalid_utf8_ends_loop_witness :
  receive_loop quiet_env [Chunk ([Byte.x81; Byte.x01; Byte.xff] ++ text_hi_unmasked)]
               open_conn []
  = (Exited, set_connected false (log_printed UnicodeDecodeError open_conn),
     text_hi_unmasked).
Proof.
  apply (invalid_utf8_ends_loop quiet_env open_conn open_conn []
           ([Byte.x81; Byte.x01; Byte.xff] ++ text_hi_unmasked)
           ([Byte.x81; Byte.x01; Byte.xff] ++ text_hi_unmasked) text_hi_unmasked []
           (Frame Byte.x81 1 false [Byte.xff] 3)).
  - reflexivity.
  - reflexivity.
  - discriminate.
  - apply reaches_here.
  - vm_compute. reflexivity.
  - reflexivity.
  - vm_compute. reflexivity.
Defined.

(* ===================================================================== *)
(** ** Further properties: the handshake                                   *)
(* ===================================================================== *)

Lemma starts_with_app {A : Type} (eqb : A -> A -> bool) (needle a b : list A) :
  starts_with eqb needle a = true -> starts_with eqb needle (a ++ b) = true.
Proof.
  revert a. induction needle as [| x n IH]; intros a; [reflexivity |].
  destruct a as [| y a]; cbn [starts_with app]; [discriminate |].
  intros H. apply andb_true_iff in H. destruct H as [H1 H2].
  rewrite H1, (IH a H2). reflexivity.
Qed.

Lemma contains_app {A : Type} (eqb : A -> A -> bool) (needle a b : list A) :
  contains eqb needle a = true -> contains eqb needle (a ++ b) = true.
Proof.
  induction a as [| y a IH]; cbn [contains app].
  - intros H. destruct needle; [| discriminate]. destruct b; reflexivity.
  - intros H. apply orb_true_iff in H. apply orb_true_iff. destruct H as [H | H].
    + left. apply (starts_with_app eqb needle (y :: a) b H).
    + right. apply IH. exact H.
Qed.

Lemma bytes_in_prefix (needle a b : bytes) :
  bytes_in needle (a ++ b) = false -> bytes_in needle a = false.
Proof.
  unfold bytes_in. intros H. destruct (contains Byte.eqb needle a) eqn:E; [| reflexivity].
  rewrite (contains_app _ _ _ b E) in H. discriminate.
Qed.

Lemma read_response_closed (chunks : list bytes) (evs : list recv_event) (response : bytes) :
  Forall (fun c => c <> []) chunks ->
  bytes_in (CRLF ++ CRLF) (response ++ List.concat chunks) = false ->
  read_response (List.map Chunk chunks ++ Chunk [] :: evs) response
  = (Fail (WebSocketError (s_lit "Connection closed during handshake")), evs).
Proof.
  intros Hne. revert response.
  induction Hne as [| c chunks Hc _ IH]; intros response Hno;
    rewrite read_response_eq, (bytes_in_prefix _ _ _ Hno).
  - reflexivity.
  - cbn [List.map app]. destruct c as [| x xs]; [contradiction |].
    apply IH. cbn [List.concat] in Hno. rewrite <- app_assoc. exact Hno.
Qed.

(** X13 (the stream ends during the handshake).  If the peer closes the
    stream before the header terminator has arrived, after any number of
    reads, [connect] raises [WebSocketError('Connection closed during
    handshake')]; apart from the request that was written the connection is
    as before, in particular not connected. *)
Theorem handshake_stream_closed (e : env) (path host key : pystr) (chunks : list bytes)
        (evs : list recv_event) (st : conn) (request : bytes) :
  encode_utf8 (handshake_request path host key) = Ok request ->
  sendall_raises e (List.length (sent st)) = None ->
  Forall (fun c => c <> []) chunks ->
  bytes_in (CRLF ++ CRLF) (List.concat chunks) = false ->
  connect e path host key (List.map Chunk chunks ++ Chunk [] :: evs) st
  = (Fail (WebSocketError (s_lit "Connection closed during handshake")),
     log_sent request st, evs).
Proof.
  intros Hq Hs Hne Hno. unfold connect, sendall. rewrite Hq, Hs.
  rewrite (read_response_closed chunks evs [] Hne Hno). reflexivity.
Qed.

Lemma handshake_stream_closed_witness :
  exists request,
    connect quiet_env (s_lit "/ws") (s_lit "localhost") (s_lit "a2V5")
            (List.map Chunk [b_lit "HTTP/1.1 101 Switching"; b_lit " Protocols"]
                      ++ Chunk [] :: [Chunk response_101]) init
    = (Fail (WebSocketError (s_lit "Connection closed during handshake")),
       log_sent request init, [Chunk response_101]).
Proof.
  eexists.
  apply (handshake_stream_closed quiet_env (s_lit "/ws") (s_lit "localhost") (s_lit "a2V5")
           [b_lit "HTTP/1.1 101 Switching"; b_lit " Protocols"] [Chunk response_101] init).
  - vm_compute. reflexivity.
  - reflexivity.
  - repeat constructor; discriminate.
  - vm_compute. reflexivity.
Defined.

(** X14 ([connect] marks the connection only on success).  Whatever the
    socket does: when [connect] returns, [_connected] is true and the stop
    event is clear (also on a connection that was closed before); when it
    raises or still waits, both flags are as they were.  It never calls the
    message callback and prints nothing. *)
Theorem connect_sets_flags_only_on_success (e : env) (path host key : pystr)
        (events evs : list recv_event) (st st' : conn) (r : io unit) :
  connect e path host key events st = (r, st', evs) ->
  delivered st' = delivered st /\ printed st' = printed st /\
  match r with
  | Done _ => connected st' = true /\ stop_event st' = false
  | _ => connected st' = connected st /\ stop_event st' = stop_event st
  end.
Proof.
  unfold connect, sendall.
  destruct (encode_utf8 _) as [request | x]; [| intros [= <- <- <-]; repeat split].
  destruct (sendall_raises e _); [intros [= <- <- <-]; repeat split |].
  destruct (read_response events []) as [[response | x |] evs'];
    try (intros [= <- <- <-]; repeat split).
  destruct (decode_utf8 response) as [s | x]; [| intros [= <- <- <-]; repeat split].
  destruct (negb _); intros [= <- <- <-]; repeat split.
Qed.

Lemma connect_sets_flags_only_on_success_witness :
  exists st',
    fst (fst (connect quiet_env (s_lit "/ws") (s_lit "localhost") (s_lit "a2V5")
                      [Chunk response_101]
                      (ws (close quiet_env (Client open_conn true))))) = Done tt /\
    snd (fst (connect quiet_env (s_lit "/ws") (s_lit "localhost") (s_lit "a2V5")
                      [Chunk response_101]
                      (ws (close quiet_env (Client open_conn true))))) = st' /\
    connected st' = true /\ stop_event st' = false.
Proof.
  eexists. split; [vm_compute; reflexivity |]. split; [reflexivity |].
  exact (proj2 (proj2 (connect_sets_flags_only_on_success quiet_env
           (s_lit "/ws") (s_lit "localhost") (s_lit "a2V5") [Chunk response_101] []
           (ws (close quiet_env (Client open_conn true))) _ (Done tt)
           ltac:(vm_compute; reflexivity)))).
Defined.

(** X15 (the handshake response may come in pieces).  If a first read brings
    no header terminator yet, it makes no difference to [connect] whether
    the next bytes come in a second read or had come in the same one (the
    request having been written). *)
Theorem handshake_reads_can_be_merged (e : env) (path host key : pystr)
        (a b : bytes) (evs : list recv_event) (st : conn) (request : bytes) :
  encode_utf8 (handshake_request path host key) = Ok request ->
  sendall_raises e (List.length (sent st)) = None ->
  a <> [] -> b <> [] -> bytes_in (CRLF ++ CRLF) a = false ->
  connect e path host key (Chunk a :: Chunk b :: evs) st
  = connect e path host key (Chunk (a ++ b) :: evs) st.
Proof.
  intros Hq Hs Ha Hb Hno.
  assert (Hr : read_response (Chunk a :: Chunk b :: evs) []
               = read_response (Chunk (a ++ b) :: evs) []).
  { rewrite !(read_response_eq _ []).
    change (bytes_in (CRLF ++ CRLF) []) with false. cbv iota.
    destruct a as [| x xs]; [contradiction |]. cbn [app].
    rewrite read_response_eq. change ([] ++ x :: xs) with (x :: xs). rewrite Hno.
    destruct b as [| y ys]; [contradiction |]. reflexivity. }
  unfold connect, sendall. rewrite Hq, Hs, Hr. reflexivity.
Qed.

Lemma handshake_reads_can_be_merged_witness :
  connect quiet_env (s_lit "/ws") (s_lit "localhost") (s_lit "a2V5")
          [Chunk (b_lit "HTTP/1.1 101 Switching"); Chunk (b_lit " Protocols" ++ CRLF ++ CRLF)]
          init
  = connect quiet_env (s_lit "/ws") (s_lit "localhost") (s_lit "a2V5")
            [Chunk (b_lit "HTTP/1.1 101 Switching" ++ b_lit " Protocols" ++ CRLF ++ CRLF)]
            init.
Proof.
  apply (handshake_reads_can_be_merged quiet_env (s_lit "/ws") (s_lit "localhost")
           (s_lit "a2V5") (b_lit "HTTP/1.1 101 Switching")
           (b_lit " Protocols" ++ CRLF ++ CRLF) [] init
           (b_lit "GET /ws HTTP/1.1" ++ CRLF ++ b_lit "Host: localhost" ++ CRLF
            ++ b_lit "Upgrade: websocket" ++ CRLF ++ b_lit "Connection: Upgrade" ++ CRLF
            ++ b_lit "Sec-WebSocket-Key: a2V5" ++ CRLF
            ++ b_lit "Sec-WebSocket-Version: 13" ++ CRLF ++ CRLF)).
  - vm_compute. reflexivity.
  - reflexivity.
  - discriminate.
  - discriminate.
  - vm_compute. reflexivity.
Defined.

(* ===================================================================== *)
(** ** Further properties: the game client                                 *)
(* ===================================================================== *)

Lemma replace_from_absent (old new s : pystr) :
  str_in old s = false -> replace_from old new 0 s = s.
Proof.
  unfold str_in. induction s as [| c tl IH]; [reflexivity |].
  cbn [contains replace_from]. intros H. apply orb_false_iff in H.
  destruct H as [H1 H2]. rewrite H1, (IH H2). reflexivity.
Qed.

Lemma replace_from_skip (old new p rest : pystr) :
  replace_from old new (List.length p) (p ++ rest) = replace_from old new 0 rest.
Proof.
  induction p as [| c p IH]; [reflexivity |].
  destruct rest as [| r rest'].
  - cbn [List.length app replace_from]. rewrite IH. reflexivity.
  - cbn [List.length app replace_from]. exact IH.
Qed.

Lemma starts_with_self (a rest : pystr) : starts_with Z.eqb a (a ++ rest) = true.
Proof.
  induction a as [| c a IH]; [reflexivity |].
  cbn [app starts_with]. rewrite Z.eqb_refl, IH. reflexivity.
Qed.

Lemma str_replace_head (c : Z) (old new rest : pystr) :
  str_in (c :: old) rest = false ->
  str_replace (c :: old) new ((c :: old) ++ rest) = new ++ rest.
Proof.
  intros H. unfold str_replace. cbn [app replace_from].
  change (c :: old ++ rest) with ((c :: old) ++ rest).
  rewrite starts_with_self.
  replace (List.length (c :: old) - 1)%nat with (List.length old)
    by (cbn [List.length]; lia).
  rewrite replace_from_skip, (replace_from_absent _ _ _ H). reflexivity.
Qed.

Lemma str_replace_absent (c : Z) (old new s : pystr) :
  str_in (c :: old) s = false -> str_replace (c :: old) new s = s.
Proof. apply replace_from_absent. Qed.

(** X16 (the WebSocket URL of a game).  For a server URL that names its
    scheme once, at the front: [https://rest] becomes
    [wss://rest/ws/games/<session>?playerId=<player>] and [http://rest]
    becomes [ws://rest/...]; session and player id are appended as they
    are.  A URL that holds neither [http://] nor [https://] is kept
    unchanged in front of the path. *)
Theorem game_ws_url_scheme (rest session_id player_id : pystr) :
  str_in (s_lit "https://") rest = false ->
  str_in (s_lit "http://") rest = false ->
  let tail := s_lit "/ws/games/" ++ session_id ++ s_lit "?playerId=" ++ player_id in
  game_ws_url (s_lit "https://" ++ rest) session_id player_id
  = s_lit "wss://" ++ rest ++ tail /\
  game_ws_url (s_lit "http://" ++ rest) session_id player_id
  = s_lit "ws://" ++ rest ++ tail /\
  game_ws_url rest session_id player_id = rest ++ tail.
Proof.
  intros Hs Hp tail. unfold game_ws_url. fold tail.
  change (s_lit "https://") with [104; 116; 116; 112; 115; 58; 47; 47] in *.
  change (s_lit "http://") with [104; 116; 116; 112; 58; 47; 47] in *.
  change (s_lit "wss://") with [119; 115; 115; 58; 47; 47].
  change (s_lit "ws://") with [119; 115; 58; 47; 47].
  split; [| split].
  - rewrite str_replace_head by exact Hs.
    rewrite str_replace_absent; [rewrite <- app_assoc; reflexivity |].
    unfold str_in in *. cbn [app contains starts_with Z.eqb Pos.eqb andb orb].
    exact Hp.
  - rewrite (str_replace_absent _ _ [119; 115; 115; 58; 47; 47]).
    + rewrite str_replace_head by exact Hp. rewrite <- app_assoc. reflexivity.
    + unfold str_in in *. cbn [app contains starts_with Z.eqb Pos.eqb andb orb].
      exact Hs.
  - rewrite (str_replace_absent _ _ [119; 115; 115; 58; 47; 47]) by exact Hs.
    rewrite str_replace_absent by exact Hp. reflexivity.
Qed.

Lemma game_ws_url_scheme_witness :
  game_ws_url (s_lit "https://" ++ s_lit "chessmata.com") (s_lit "g1") (s_lit "p1")
  = s_lit "wss://" ++ s_lit "chessmata.com"
    ++ s_lit "/ws/games/" ++ s_lit "g1" ++ s_lit "?playerId=" ++ s_lit "p1".
Proof.
  exact (proj1 (game_ws_url_scheme (s_lit "chessmata.com") (s_lit "g1") (s_lit "p1")
                  ltac:(vm_compute; reflexivity) ltac:(vm_compute; reflexivity))).
Defined.

Lemma pystr_eqb_eq (a b : pystr) : pystr_eqb a b = true -> a = b.
Proof.
  unfold pystr_eqb. revert b. induction a as [| x a IH]; intros [| y b]; cbn;
    try discriminate; [reflexivity |].
  intros H. apply andb_true_iff in H. destruct H as [Hl H].
  apply andb_true_iff in H. destruct H as [Hx Hs]. apply Z.eqb_eq in Hx. subst y.
  f_equal. apply IH. rewrite Hl, Hs. reflexivity.
Qed.

Lemma is_str_eq (v : pyvalue) (literal : pystr) :
  is_str v literal = true -> v = PyStr literal.
Proof.
  destruct v; cbn [is_str]; try discriminate.
  intros H. apply pystr_eqb_eq in H. subst. reflexivity.
Qed.

Lemma is_str_other (v : pyvalue) (literal : pystr) :
  v <> PyStr literal -> is_str v literal = false.
Proof.
  intros H. destruct (is_str v literal) eqn:E; [| reflexivity].
  apply is_str_eq in E. contradiction.
Qed.

(** X17 (which handler a message goes to).  A message that parses to a JSON
    object is routed by the string under its [type] key: [game_update],
    [move], [player_joined] and [resignation] go to the handler of that
    event with the whole object, [error] goes to the error handler with the
    object's [message] (or the text [Unknown error] when there is none).
    When that handler is registered and returns, it is the only call made;
    when it is not registered, nothing is called and nothing is raised. *)
Theorem message_routed_by_type (json_loads : pystr -> option pyvalue) (h : handlers)
        (message : pystr) (items : list (pystr * pyvalue))
        (t : pystr) (cb : option handler) (mk : pyvalue -> call) (arg : pyvalue) :
  json_loads message = Some (PyDict items) ->
  dict_get items (s_lit "type") PyNone = PyStr t ->
  In (t, cb, mk, arg)
     [(s_lit "game_update", on_game_update h, GameUpdate, PyDict items);
      (s_lit "move", on_opponent_move h, OpponentMove, PyDict items);
      (s_lit "player_joined", on_player_joined h, PlayerJoined, PyDict items);
      (s_lit "resignation", on_resignation h, Resignation, PyDict items);
      (s_lit "error", on_error h, ErrorReport,
       dict_get items (s_lit "message") (PyStr (s_lit "Unknown error")))] ->
  match cb with
  | Some f =>
    f arg = None -> handle_message json_loads h message = ([mk arg], None)
  | None => handle_message json_loads h message = ([], None)
  end.
Proof.
  intros Hj Ht Hin. unfold handle_message. rewrite Hj, Ht.
  cbn [In] in Hin.
  destruct Hin as [H | [H | [H | [H | [H | []]]]]]; injection H as <- <- <- <-;
    unfold invoke;
    match goal with
    | |- match ?c with _ => _ end => destruct c as [f |]
    end;
    try (intros Hf); vm_compute is_str; cbv iota; rewrite ?Hf; reflexivity.
Qed.

Lemma message_routed_by_type_witness :
  handle_message (fun _ => Some (PyDict [(s_lit "type", PyStr (s_lit "move"))]))
                 (Handlers None (Some (fun _ => None)) None None None) (s_lit "m")
  = ([OpponentMove (PyDict [(s_lit "type", PyStr (s_lit "move"))])], None).
Proof.
  apply (message_routed_by_type
           (fun _ => Some (PyDict [(s_lit "type", PyStr (s_lit "move"))]))
           (Handlers None (Some (fun _ => None)) None None None) (s_lit "m")
           [(s_lit "type", PyStr (s_lit "move"))] (s_lit "move")
           (Some (fun _ => None)) OpponentMove
           (PyDict [(s_lit "type", PyStr (s_lit "move"))])).
  - reflexivity.
  - vm_compute. reflexivity.
  - right. left. reflexivity.
  - reflexivity.
Defined.

(** X18 (other messages are dropped).  A JSON object whose [type] is absent,
    is not a string, or is a string other than the five known ones leads to
    no handler call and no exception. *)
Theorem unknown_type_is_dropped (json_loads : pystr -> option pyvalue) (h : handlers)
        (message : pystr) (items : list (pystr * pyvalue)) :
  json_loads message = Some (PyDict items) ->
  (forall t, In t [s_lit "game_update"; s_lit "move"; s_lit "player_joined";
                   s_lit "resignation"; s_lit "error"] ->
             dict_get items (s_lit "type") PyNone <> PyStr t) ->
  handle_message json_loads h message = ([], None).
Proof.
  intros Hj Hno. unfold handle_message. rewrite Hj.
  rewrite !is_str_other by (apply Hno; cbn [In]; tauto). reflexivity.
Qed.

Lemma unknown_type_is_dropped_witness :
  handle_message (fun _ => Some (PyDict [(s_lit "type", PyInt 5)]))
                 (Handlers None None None None (Some (fun _ => None))) (s_lit "m")
  = ([], None).
Proof.
  apply (unknown_type_is_dropped (fun _ => Some (PyDict [(s_lit "type", PyInt 5)]))
           (Handlers None None None None (Some (fun _ => None))) (s_lit "m")
           [(s_lit "type", PyInt 5)]).
  - reflexivity.
  - intros t _. vm_compute. discriminate.
Defined.

(** X19 (a [JSONDecodeError] is reported as an invalid message, wherever it
    comes from).  When the message does not parse, or when the handler of a
    [move] message itself raises [JSONDecodeError], the error handler is
    called with the text [Invalid message: ] followed by the message, and
    what it raises is what leaves the method; in the second case the
    message was valid and its handler had already been called. *)
Theorem decode_error_reported_as_invalid (json_loads : pystr -> option pyvalue)
        (h : handlers) (message : pystr) (report : handler) :
  on_error h = Some report ->
  let arg := PyStr (s_lit "Invalid message: " ++ message) in
  (json_loads message = None ->
   handle_message json_loads h message = ([ErrorReport arg], report arg)) /\
  (forall items f,
     json_loads message = Some (PyDict items) ->
     dict_get items (s_lit "type") PyNone = PyStr (s_lit "move") ->
     on_opponent_move h = Some f -> f (PyDict items) = Some JSONDecodeError ->
     handle_message json_loads h message
     = ([OpponentMove (PyDict items); ErrorReport arg], report arg)).
Proof.
  intros Hr arg. split.
  - intros Hj. unfold handle_message, report_invalid. rewrite Hj, Hr. reflexivity.
  - intros items f Hj Ht Hf Hx. unfold handle_message. rewrite Hj, Ht.
    vm_compute is_str. cbv iota. unfold invoke, report_invalid.
    rewrite Hf, Hx, Hr. reflexivity.
Qed.

Lemma decode_error_reported_as_invalid_witness :
  handle_message (fun _ => None) (Handlers None None None None (Some (fun _ => None)))
                 (s_lit "{")
  = ([ErrorReport (PyStr (s_lit "Invalid message: " ++ s_lit "{"))], None).
Proof.
  exact (proj1 (decode_error_reported_as_invalid (fun _ => None)
                  (Handlers None None None None (Some (fun _ => None))) (s_lit "{")
                  (fun _ => None) eq_refl) eq_refl).
Defined.

(** X20 (a JSON message that is not an object ends the receive thread).
    With [_handle_message] as the socket's callback: a text frame whose
    payload parses to a list, a string, a number, a boolean or null makes
    [data.get] raise [AttributeError]; no handler is called, not even the
    error handler, the exception is printed by the receive loop,
    [_connected] becomes false and the loop is left. *)
Theorem non_object_json_ends_loop (json_loads : pystr -> option pyvalue) (h : handlers)
        (e : env) (st st1 : conn) (buffer chunk b1 rest : bytes)
        (evs : list recv_event) (f : frame) (message : pystr) (data : pyvalue) :
  on_message e = Some (game_callback json_loads h) ->
  connected st = true -> stop_event st = false -> chunk <> [] ->
  inner_reaches e st (buffer ++ chunk) st1 b1 ->
  decode_step b1 = Decoded f rest -> opcode f = 1 ->
  utf8_decode (payload f) = Some message ->
  json_loads message = Some data -> (forall items, data <> PyDict items) ->
  handle_message json_loads h message = ([], Some AttributeError) /\
  receive_loop e (Chunk chunk :: evs) st buffer
  = (Exited,
     set_connected false (log_printed CallbackError (log_delivered message st1)), rest).
Proof.
  intros Hcb Hc Hs Hne Hr Hd Hop Hutf Hj Hnd.
  assert (Hm : handle_message json_loads h message = ([], Some AttributeError)).
  { unfold handle_message. rewrite Hj.
    destruct data; try reflexivity. exfalso. apply (Hnd items). reflexivity. }
  split; [exact Hm |].
  apply (receive_loop_raised e evs st st1 (log_delivered message st1) buffer chunk b1 rest
           CallbackError Hc Hs Hne Hr); [| reflexivity].
  cbn [parse_frames]. rewrite Hd. unfold handle_frame, decode_utf8.
  rewrite Hop, Hutf, Hcb. unfold game_callback. rewrite Hm. reflexivity.
Qed.

Lemma non_object_json_ends_loop_witness :
  let loads := fun _ : pystr => Some (PyList []) in
  let h := Handlers None None None None (Some (fun _ => None)) in
  let e := Env (Some (game_callback loads h)) (fun _ => key_1234) (fun _ => None) in
  receive_loop e [Chunk (server_text (b_lit "[]"))] open_conn []
  = (Exited,
     set_connected false (log_printed CallbackError (log_delivered (s_lit "[]") open_conn)),
     []).
Proof.
  cbv zeta.
  refine (proj2 (non_object_json_ends_loop (fun _ => Some (PyList []))
                   (Handlers None None None None (Some (fun _ => None)))
                   _ open_conn open_conn [] (server_text (b_lit "[]"))
                   (server_text (b_lit "[]")) [] []
                   (Frame Byte.x81 1 false (b_lit "[]") 4) (s_lit "[]") (PyList [])
                   _ _ _ _ _ _ _ _ _ _)).
  - reflexivity.
  - reflexivity.
  - reflexivity.
  - discriminate.
  - apply reaches_here.
  - vm_compute. reflexivity.
  - reflexivity.
  - vm_compute. reflexivity.
  - reflexivity.
  - discriminate.
Defined.

Lemma connect_rejects_without_101_witness :
  exists request,
    connect quiet_env (s_lit "/ws") (s_lit "localhost") (s_lit "a2V5")
            [Chunk response_404] init
    = (Fail (WebSocketError
               (s_lit "WebSocket handshake failed: "
                ++ firstn 200 (s_lit "HTTP/1.1 404 Not Found" ++ s_CRLF ++ s_CRLF))),
       log_sent request init, []).
Proof.
  eexists.
  apply (connect_rejects_without_101 quiet_env (s_lit "/ws") (s_lit "localhost")
           (s_lit "a2V5") [Chunk response_404] [] init _ response_404).
  - vm_compute. reflexivity.
  - reflexivity.
  - vm_compute. reflexivity.
  - vm_compute. reflexivity.
  - vm_compute. reflexivity.
Defined.

(** X23 (a failed handshake leaves the socket to [disconnect]).  [connect]
    stores the socket before the handshake and does not release it when the
    handshake fails: on a fresh client the connection then reads as not
    connected but still holds the socket, and it is [disconnect] that
    releases it, after writing one masked close frame to it; afterwards the
    game client holds no socket object and reads as not connected. *)
Theorem failed_handshake_closed_by_disconnect (e : env) (path host key : pystr)
        (events evs : list recv_event) (x : exn) (c' : client) :
  client_connect e path host key events (Client init false) = (Fail x, c', evs) ->
  game_connected (Some c') = false /\ has_socket c' = true /\
  exists f,
    decode_step f = Decoded (Frame Byte.x88 8 true [] 6) [] /\
    disconnect e (Some c')
    = (None,
       Some (Client (log_sent f (tick_urandom (set_connected false (set_stop (ws c')))))
                    false)) /\
    game_connected (fst (disconnect e (Some c'))) = false.
Proof.
  unfold client_connect. cbn [ws].
  destruct (connect e path host key events init) as [[r st] evs'] eqn:Hc.
  intros [= -> <- <-]. cbn [game_connected ws has_socket].
  assert (Hflag : connected st = false).
  { revert Hc. unfold connect, sendall.
    destruct (encode_utf8 _) as [request | y]; [| intros [= _ <- _]; reflexivity].
    destruct (sendall_raises e _); [intros [= _ <- _]; reflexivity |].
    destruct (read_response events []) as [[response | y |] evs''];
      try (intros [= _ <- _]; reflexivity).
    destruct (decode_utf8 response) as [s | y]; [| intros [= _ <- _]; reflexivity].
    destruct (negb _); [intros [= _ <- _]; reflexivity | discriminate]. }
  split; [exact Hflag |]. split; [reflexivity |].
  pose proof (frame_bytes_wire [] 8 (urandom4 e (urandom_calls st))
                               ltac:(lia) ltac:(reflexivity)) as Hf.
  eexists. split; [| split; [| reflexivity]].
  - pose proof (decode_frame_bytes [] [] 8 _ _ Hf) as Hd.
    rewrite app_nil_r in Hd. exact Hd.
  - unfold disconnect, close, send_frame, sendall. cbn [has_socket ws].
    cbn [urandom_calls set_connected set_stop]. rewrite Hf.
    destruct (sendall_raises e _); reflexivity.
Qed.

Lemma failed_handshake_closed_by_disconnect_witness :
  exists c',
    client_connect quiet_env (s_lit "/ws") (s_lit "localhost") (s_lit "a2V5")
                   [Chunk response_404] (Client init false)
    = (Fail (WebSocketError
               (s_lit "WebSocket handshake failed: HTTP/1.1 404 Not Found"
                ++ s_CRLF ++ s_CRLF)), c', []) /\
    game_connected (Some c') = false /\ has_socket c' = true.
Proof.
  eexists. split; [vm_compute; reflexivity |].
  pose proof (failed_handshake_closed_by_disconnect quiet_env
                (s_lit "/ws") (s_lit "localhost") (s_lit "a2V5") [Chunk response_404] []
                _ _ ltac:(vm_compute; reflexivity)) as (H1 & H2 & _).
  split; [exact H1 | exact H2].
Defined.
